(** * CloudReg: scripts/create_precomputed_volume_v2.py

    A shallow embedding of the slice-stack to precomputed-volume converter
    and the properties of its batching, loading, pyramid and writing steps. *)

From Stdlib Require Import ZArith Lia List String.
From stdpp Require Import base list numbers.

Open Scope Z_scope.

(** ** Python values used by the script *)

(** Exceptions the script can raise (none is caught anywhere in the file). *)
Inductive exn : Type :=
| ValueError
| IndexError
| IOError.

Inductive result (A : Type) : Type :=
| Ok (a : A)
| Raise (e : exn).
Arguments Ok {A} a.
Arguments Raise {A} e.

Definition is_ok {A} (r : result A) : bool :=
  match r with Ok _ => true | Raise _ => false end.

Module Py.

(** A slice bound [i] of a sequence of length [len], clipped the way
    Python clips [l[a:b]]: negative bounds count from the end. *)
Definition slice_index (i len : Z) : Z :=
  if i <? 0 then Z.max 0 (i + len) else Z.min i len.

(** [l[a:b]] *)
Definition slice {A} (l : list A) (a b : Z) : list A :=
  let len := Z.of_nat (length l) in
  let lo := slice_index a len in
  let hi := slice_index b len in
  take (Z.to_nat (hi - lo)) (drop (Z.to_nat lo) l).

(** The values [i, i+step, ...] below [stop], for a positive step. *)
Fixpoint range_up (fuel : nat) (i stop step : Z) : list Z :=
  match fuel with
  | O => []
  | S fuel' =>
      if i <? stop then i :: range_up fuel' (i + step) stop step else []
  end.

(** The values [i, i+step, ...] above [stop], for a negative step. *)
Fixpoint range_down (fuel : nat) (i stop step : Z) : list Z :=
  match fuel with
  | O => []
  | S fuel' =>
      if stop <? i then i :: range_down fuel' (i + step) stop step else []
  end.

(** [range(start, stop, step)]; a zero step is a ValueError.  The distance
    between the bounds is enough fuel, since every step moves by at least
    one. *)
Definition range (start stop step : Z) : result (list Z) :=
  if step =? 0 then Raise ValueError
  else if 0 <? step
       then Ok (range_up (Z.to_nat (stop - start)) start stop step)
       else Ok (range_down (Z.to_nat (start - stop)) start stop step).

(** [enumerate(l)] *)
Definition enumerate {A} (l : list A) : list (nat * A) :=
  imap (fun i x => (i, x)) l.

End Py.

(** ** Batching *)

Definition CHUNK_SIZE : Z := 16.

(** [chunks(l, n)], drained: the list of the slices the generator yields. *)
Definition chunks {A} (l : list A) (n : Z) : result (list (list A)) :=
  match Py.range 0 (Z.of_nat (length l)) n with
  | Raise e => Raise e
  | Ok idxs => Ok (map (fun i => Py.slice l i (i + n)) idxs)
  end.

(** [ceil(a/b)] for a positive [b]. *)
Definition ceil_div (a b : Z) : Z := (a + b - 1) / b.

(** ** Arrays *)

(** An n-dimensional array: its shape and the sample at each index.  Only
    the samples at indices inside the shape are meaningful. *)
Record ndarray : Type := mk_ndarray {
  shape : list nat;
  item : list nat -> Z
}.

Module Np.

(** [np.zeros(shape)] *)
Definition zeros (sh : list nat) : ndarray :=
  {| shape := sh; item := fun _ => 0 |}.

(** The index into an array of shape [sh] that an index into its squeezed
    form stands for: the removed axes are read at 0. *)
Fixpoint unsqueeze_index (sh idx : list nat) : list nat :=
  match sh with
  | [] => []
  | d :: sh' =>
      if (d =? 1)%nat then O :: unsqueeze_index sh' idx
      else match idx with
           | i :: idx' => i :: unsqueeze_index sh' idx'
           | [] => []
           end
  end.

(** [np.squeeze(a)]: every axis of length one is removed. *)
Definition squeeze (a : ndarray) : ndarray :=
  {| shape := filter (fun d => d <> 1%nat) (shape a);
     item := fun idx => item a (unsqueeze_index (shape a) idx) |}.

(** [a.T]: the axes in reverse order. *)
Definition transpose (a : ndarray) : ndarray :=
  {| shape := rev (shape a); item := fun idx => item a (rev idx) |}.

(** The cast of an integer sample to dtype uint16. *)
Definition to_uint16 (v : Z) : Z := v mod 65536.

(** An index [i] into an axis of length [len]; negative indices count
    from the end, anything else out of bounds is an IndexError. *)
Definition axis_index (i : Z) (len : nat) : result nat :=
  if (i <? - Z.of_nat len) || (Z.of_nat len <=? i) then Raise IndexError
  else Ok (Z.to_nat (if i <? 0 then i + Z.of_nat len else i)).

(** Assignment drops leading axes of length one of the value while it has
    more axes than the destination. *)
Fixpoint strip_ones (extra : nat) (sh : list nat) : list nat :=
  match extra, sh with
  | S e, 1%nat :: sh' => strip_ones e sh'
  | _, _ => sh
  end.

(** Whether a value of shape [src] can be assigned to a region of shape
    [dst]: aligned at the last axis, each axis of the value has length one
    or the length of the destination's. *)
Definition broadcastable (src dst : list nat) : bool :=
  let s := strip_ones (length src - length dst) src in
  (length s <=? length dst)%nat &&
  forallb (fun p => (p.1 =? 1)%nat || (p.1 =? p.2)%nat)
          (zip (rev s) (rev dst)).

(** The index of the value's sample that lands at index [idx] of the
    destination region. *)
Definition broadcast_index (src idx : list nat) : list nat :=
  let k := (length src - length idx)%nat in
  replicate k O ++
  rev (zip_with (fun d i => if (d =? 1)%nat then O else i)
                (rev (drop k src)) (rev idx)).

(** [out[:, :, z_idx] = v] for a three-dimensional [out]: the array after
    the assignment, or the exception that leaves it as it was. *)
Definition set_depth_slice (out : ndarray) (z_idx : Z) (v : ndarray)
  : result ndarray :=
  match shape out with
  | [X; Y; D] =>
      match axis_index z_idx D with
      | Raise e => Raise e
      | Ok z =>
          if broadcastable (shape v) [X; Y] then
            Ok {| shape := shape out;
                  item := fun idx =>
                    match idx with
                    | [x; y; k] =>
                        if (k =? z)%nat
                        then to_uint16
                               (item v (broadcast_index (shape v) [x; y]))
                        else item out idx
                    | _ => item out idx
                    end |}
          else Raise ValueError
      end
  | _ => Raise IndexError
  end.

End Np.

(** ** The volume store's schema *)

(** One resolution level of the schema. *)
Record Scale : Type := {
  factor : list Z;
  size : list Z;
  chunk_sizes : list Z;
  voxel_offset : list Z
}.

Record Info : Type := {
  num_channels : Z;
  layer_type : string;
  data_type : string;
  encoding : string;
  resolution : list Z;
  scales : list Scale
}.

(** A [CloudVolume] object: the layer it addresses, the schema it holds and
    the level its reads and writes go to. *)
Record CloudVolume : Type := {
  layer_cloudpath : string;
  info : Info;
  mip : nat;
  parallel : bool
}.

(** What the run does to the store. *)
Inductive event : Type :=
| CommitInfo (path : string) (i : Info)
    (* vol.commit_info() *)
| WriteBox (path : string) (level : nat) (z_start z_end : Z) (img : ndarray).
    (* v[:, :, z_start:z_end] = img, for v opened at [level] *)

(** Computations that issue store events and may raise. *)
Definition M (A : Type) : Type := (list event * result A)%type.

Definition ret {A} (a : A) : M A := ([], Ok a).
Definition raise {A} (e : exn) : M A := ([], Raise e).
Definition emit (ev : event) : M unit := ([ev], Ok tt).
Definition lift {A} (r : result A) : M A := ([], r).

Definition bind {A B} (m : M A) (k : A -> M B) : M B :=
  match m with
  | (t, Raise e) => (t, Raise e)
  | (t, Ok a) => let '(t', r) := k a in (t ++ t', r)
  end.

Notation "x <- m ;; k" := (bind m (fun x => k))
  (at level 100, m at next level, right associativity).
Notation "m ;;; k" := (bind m (fun _ => k))
  (at level 100, right associativity).

(** [for x in l: body(x)] *)
Fixpoint for_each {A} (body : A -> M unit) (l : list A) : M unit :=
  match l with
  | [] => ret tt
  | x :: l' => body x ;;; for_each body l'
  end.

(** [l[i]] for a non-negative [i]. *)
Definition get {A} (l : list A) (i : nat) : result A :=
  match l !! i with
  | Some x => Ok x
  | None => Raise IndexError
  end.

Definition pow2 (i : nat) : Z := 2 ^ Z.of_nat i.

Module Cv.

(** Modelled from the spec: CloudVolume.create_new_info is not part of
    the script.  The schema starts with the full-resolution level alone:
    downsample factor one, the whole extent, the base chunk shape and
    the origin. *)
Definition create_new_info (num_channels : Z)
    (layer_type data_type encoding : string)
    (resolution voxel_offset chunk_size volume_size : list Z) : Info :=
  {| num_channels := num_channels;
     layer_type := layer_type;
     data_type := data_type;
     encoding := encoding;
     resolution := resolution;
     scales := [ {| factor := [1; 1; 1];
                    size := volume_size;
                    chunk_sizes := chunk_size;
                    voxel_offset := voxel_offset |} ] |}.

(** Modelled from the spec: the level that CloudVolume.add_scale derives
    from the full-resolution level [full] for the downsample factor [f].
    The extent is the full extent divided by the factor, rounded up; the
    chunk shape and the origin are shared. *)
Definition derived_scale (full : Scale) (f : list Z) : Scale :=
  {| factor := f;
     size := zip_with ceil_div (size full) f;
     chunk_sizes := chunk_sizes full;
     voxel_offset := voxel_offset full |}.

(** Modelled from the spec: where CloudVolume.add_scale stores a level.
    Each factor has one level: a level of the same factor is replaced, a
    level of a new factor is appended. *)
Fixpoint put_scale (sc : Scale) (l : list Scale) : list Scale :=
  match l with
  | [] => [sc]
  | s :: l' =>
      if decide (factor s = factor sc) then sc :: l'
      else s :: put_scale sc l'
  end.

(** Modelled from the spec: CloudVolume.add_scale is not part of the
    script.  It stores, for the factor given, the level with that factor,
    the resolution-scaled extent and the shared base chunk shape. *)
Definition add_scale (i : Info) (f : list Z) : Info :=
  match scales i with
  | [] => i
  | full :: _ =>
      {| num_channels := num_channels i;
         layer_type := layer_type i;
         data_type := data_type i;
         encoding := encoding i;
         resolution := resolution i;
         scales := put_scale (derived_scale full f) (scales i) |}
  end.

End Cv.

(** [create_cloud_volume(precomputed_path, img_size, voxel_size,
    num_hierarchy_levels, parallel)] *)
Definition create_cloud_volume (precomputed_path : string)
    (img_size voxel_size : list Z) (num_hierarchy_levels : nat)
    (parallel : bool) : M CloudVolume :=
  let info0 :=
    Cv.create_new_info 1 "image" "uint16" "raw" voxel_size [0; 0; 0]
      [CHUNK_SIZE * 8; CHUNK_SIZE * 8; CHUNK_SIZE] img_size in
  let info1 :=
    fold_left (fun inf i => Cv.add_scale inf [pow2 i; pow2 i; 1])
              (seq 0 num_hierarchy_levels) info0 in
  emit (CommitInfo precomputed_path info1) ;;;
  ret {| layer_cloudpath := precomputed_path;
         info := info1;
         mip := 0;
         parallel := parallel |}.

(** [get_vol_at_mip(precomputed_path, mip, parallel)]: the handle at one
    level of the layer, with the schema [inf] it finds committed there; the
    script only writes through it. *)
Definition get_vol_at_mip (precomputed_path : string) (inf : Info)
    (mip : nat) (parallel : bool) : CloudVolume :=
  {| layer_cloudpath := precomputed_path;
     info := inf;
     mip := mip;
     parallel := parallel |}.

(** Sequencing of computations that may raise but issue no event. *)
Definition rbind {A B} (r : result A) (k : A -> result B) : result B :=
  match r with
  | Ok a => k a
  | Raise e => Raise e
  end.

Notation "'try' x := r 'in' k" := (rbind r (fun x => k))
  (at level 100, x name, r at next level, k at level 100).

(** The extent of an axis given as a Python integer; a negative one is a
    ValueError of [np.zeros]. *)
Definition to_dim (n : Z) : result nat :=
  if n <? 0 then Raise ValueError else Ok (Z.to_nat n).

(** [v[:, :, z_start:z_end] = img]: one bulk write over the whole X and Y
    extent of [v]'s level. *)
Definition write_slab (v : CloudVolume) (z_start z_end : Z) (img : ndarray)
  : M unit :=
  emit (WriteBox (layer_cloudpath v) (mip v) z_start z_end img).

Definition half_up (n : nat) : nat := ((n + 1) / 2)%nat.

(** The samples along one axis of length [n] that fall into output cell
    [i]: [2i] and [2i+1], as far as they exist. *)
Definition window (n i : nat) : list nat :=
  filter (fun k => (k < n)%nat) [(2 * i)%nat; (2 * i + 1)%nat].

Definition sum_list (l : list Z) : Z := fold_right Z.add 0 l.

Section Pipeline.

(** The files on disk: what [np.asarray(Image.open(path))] decodes a
    path to, when it can be read. *)
Variable fs : string -> option ndarray.

(** The rounding rule of the averaging: the sample that stands for a sum
    of [count] samples. *)
Variable round_mean : Z -> Z -> Z.

Definition open_image (path_to_file : string) : result ndarray :=
  match fs path_to_file with
  | Some a => Ok a
  | None => Raise IOError
  end.

(** [load_image(path_to_file, transpose)] *)
Definition load_image (path_to_file : string) (transpose : bool)
  : result ndarray :=
  try a := open_image path_to_file in
  let image := Np.squeeze a in
  if transpose then Ok (Np.transpose image) else Ok image.

(** [load_image_to_array(path_to_file, out_array, z_idx, transpose)]:
    the destination array after the call, or the exception raised, in
    which case the destination is as before. *)
Definition load_image_to_array (path_to_file : string)
    (out_array : ndarray) (z_idx : Z) (transpose : bool) : result ndarray :=
  try a := open_image path_to_file in
  let image := Np.squeeze a in
  if transpose
  then Np.set_depth_slice out_array z_idx (Np.transpose image)
  else Np.set_depth_slice out_array z_idx image.

(** The destination array once the call is over. *)
Definition array_after (out_array : ndarray) (r : result ndarray) : ndarray :=
  match r with
  | Ok a => a
  | Raise _ => out_array
  end.

(** [Parallel(n_jobs=len(f), require='sharedmem')(
       delayed(load_image_to_array)(img, tmp_chunk, idx)
       for idx, img in enumerate(f))]:
    the workers share [tmp_chunk]; they are run here one after the other
    in the order of the enumeration, and the first exception ends the
    call. *)
Fixpoint run_workers (jobs : list (nat * string)) (tmp_chunk : ndarray)
  : result ndarray :=
  match jobs with
  | [] => Ok tmp_chunk
  | (idx, img) :: jobs' =>
      try t := load_image_to_array img tmp_chunk (Z.of_nat idx) true in
      run_workers jobs' t
  end.

(** Modelled from the spec: tinybrain's 2x2 averaging is not part of the
    script.  One step averages each non-overlapping 2x2 neighbourhood of
    the X/Y plane; every other axis is untouched; at an odd extent the
    trailing cell averages only the samples that exist, so the derived
    extent is the half rounded up. *)
Definition average_2x2 (b : ndarray) : ndarray :=
  match shape b with
  | X :: Y :: rest =>
      {| shape := half_up X :: half_up Y :: rest;
         item := fun idx =>
           match idx with
           | x :: y :: zs =>
               let cells :=
                 flat_map (fun x' =>
                   map (fun y' => item b (x' :: y' :: zs)) (window Y y))
                   (window X x) in
               round_mean (sum_list cells) (Z.of_nat (length cells))
           | _ => 0
           end |}
  | _ => b
  end.

Fixpoint pyramid (levels : nat) (b : ndarray) : list ndarray :=
  match levels with
  | O => []
  | S n => let b' := average_2x2 b in b' :: pyramid n b'
  end.

(** Modelled from the spec: tinybrain.accelerated.average_pooling_2x2 is
    not part of the script.  For a target level count [num_mips] it gives
    the [num_mips - 1] further blocks, each averaged from the one
    before it. *)
Definition average_pooling_2x2 (img : ndarray) (num_mips : nat)
  : list ndarray :=
  pyramid (num_mips - 1) img.

(** The block of one batch [f]: [np.zeros((size[0], size[1], len(f)))]
    filled by the workers. *)
Definition fill_block (sz : list Z) (f : list string) : result ndarray :=
  try sx := (try n := get sz 0 in to_dim n) in
  try sy := (try n := get sz 1 in to_dim n) in
  run_workers (Py.enumerate f) (Np.zeros [sx; sy; length f]).

(** The body of the loop over the batches in [upload_image_to_volume]. *)
Definition upload_batch (vol : CloudVolume) (vols : list CloudVolume)
    (sz : list Z) (num_mips : nat) (job : nat * list string) : M unit :=
  let '(i, f) := job in
  tmp_chunk <- lift (fill_block sz f) ;;
  let img_pyramid := average_pooling_2x2 tmp_chunk num_mips in
  let start := Z.of_nat i * CHUNK_SIZE in
  let end_ := start + Z.of_nat (length f) in
  write_slab vol start end_ tmp_chunk ;;;
  for_each (fun j =>
              p <- lift (get img_pyramid j) ;;
              v <- lift (get vols (j + 1)) ;;
              write_slab v start end_ p)
           (seq 0 (num_mips - 1)).

(** [upload_image_to_volume(vol, files)]; the progress bar around the
    loop shows the run and changes nothing. *)
Definition upload_image_to_volume (vol : CloudVolume) (files : list string)
  : M unit :=
  sc0 <- lift (get (scales (info vol)) 0) ;;
  let sz := size sc0 in
  let num_mips := length (scales (info vol)) in
  let vols :=
    map (fun i => get_vol_at_mip (layer_cloudpath vol) (info vol) i true)
        (seq 0 num_mips) in
  batches <- lift (chunks files CHUNK_SIZE) ;;
  for_each (upload_batch vol vols sz num_mips) (Py.enumerate batches).

(** [get_image_dims(files)] *)
Definition get_image_dims (files : list string) : result (list Z) :=
  try f0 := get files 0 in
  try img := load_image f0 true in
  let z_size := length files in
  match shape img with
  | [x_size; y_size] =>
      Ok [Z.of_nat x_size; Z.of_nat y_size; Z.of_nat z_size]
  | _ => Raise ValueError
  end.

(** [main()], from the sorted file list on: [voxel_dims] is the outcome of
    [get_voxel_dims] on the XML sidecar. *)
Definition main (files : list string) (voxel_dims : result (list Z))
    (precomputed_path : string) : M unit :=
  img_size <- lift (get_image_dims files) ;;
  voxel_size <- lift voxel_dims ;;
  vol <- create_cloud_volume precomputed_path img_size voxel_size 6 true ;;
  upload_image_to_volume vol files.

(** *** Notions the properties are stated with *)

(** The block of level [lvl] that belongs to the full-resolution block
    [blk]. *)
Definition level_block (lvl : nat) (blk : ndarray) : ndarray :=
  Nat.iter lvl average_2x2 blk.

(** One write per level, from level 0 up, of the depth range of batch [i]
    of [len] files. *)
Definition batch_writes (path : string) (num_mips i len : nat)
    (blk : ndarray) : list event :=
  map (fun lvl =>
         WriteBox path lvl (Z.of_nat i * CHUNK_SIZE)
                  (Z.of_nat i * CHUNK_SIZE + Z.of_nat len)
                  (level_block lvl blk))
      (seq 0 num_mips).

(** The slice of file [p], as [load_image] returns it, has not the
    declared extent, or the file is unreadable. *)
Definition slice_disagrees (X Y : nat) (p : string) : Prop :=
  match load_image p true with
  | Ok a => shape a <> [X; Y]
  | Raise _ => True
  end.

(** The file [p] is unreadable, or its slice cannot be assigned to a
    region of extent (X, Y). *)
Definition slice_raises (X Y : nat) (p : string) : bool :=
  match load_image p true with
  | Ok a => negb (Np.broadcastable (shape a) [X; Y])
  | Raise _ => true
  end.

End Pipeline.

(** ** The store behind the writes *)

Module Store.

(** An axis-aligned box of voxels, half-open on every axis. *)
Record box : Type := {
  x0 : nat; x1 : nat;
  y0 : nat; y1 : nat;
  z0 : nat; z1 : nat
}.

Definition extent (b : box) : list nat :=
  [(x1 b - x0 b)%nat; (y1 b - y0 b)%nat; (z1 b - z0 b)%nat].

Definition inside (b : box) (v : list nat) : bool :=
  match v with
  | [x; y; z] =>
      (x0 b <=? x)%nat && (x <? x1 b)%nat &&
      (y0 b <=? y)%nat && (y <? y1 b)%nat &&
      (z0 b <=? z)%nat && (z <? z1 b)%nat
  | _ => false
  end.

(** The voxel of the volume at index [idx] of a box, and back. *)
Definition absolute (b : box) (idx : list nat) : list nat :=
  zip_with Nat.add [x0 b; y0 b; z0 b] idx.

Definition relative (b : box) (v : list nat) : list nat :=
  zip_with Nat.sub v [x0 b; y0 b; z0 b].

(** The chunk grid of one level: a voxel lies in the chunk numbered by
    its coordinates divided by the chunk shape, at the remainders. *)
Definition chunk_of (cs v : list nat) : list nat := zip_with Nat.div v cs.
Definition offset_in (cs v : list nat) : list nat :=
  zip_with Nat.modulo v cs.
Definition voxel_at (cs chunk off : list nat) : list nat :=
  zip_with Nat.add (zip_with Nat.mul chunk cs) off.
Definition in_chunk (cs off : list nat) : bool :=
  (length off =? length cs)%nat &&
  forallb (fun p => (fst p <? snd p)%nat) (zip off cs).

(** The persistent state: per level and chunk, the samples of the chunk
    at each offset. *)
Definition t : Type := nat -> list nat -> list nat -> Z.

(** Modelled from the spec: the backend's [write_box] is not part of the
    script.  It fails on a data array that has not the extent of the
    box, and otherwise stores the array in the chunks of the level that
    the box meets. *)
Definition write_box (cs : list nat) (s : t) (level : nat) (b : box)
    (data : ndarray) : result t :=
  if decide (shape data = extent b) then
    Ok (fun l chunk off =>
          let v := voxel_at cs chunk off in
          if (l =? level)%nat && in_chunk cs off && inside b v
          then item data (relative b v)
          else s l chunk off)
  else Raise ValueError.

(** Modelled from the spec: the backend's [read_box] is not part of the
    script.  It gathers the samples of a box from the chunks. *)
Definition read_box (cs : list nat) (s : t) (level : nat) (b : box)
  : ndarray :=
  {| shape := extent b;
     item := fun idx =>
       let v := absolute b idx in
       s level (chunk_of cs v) (offset_in cs v) |}.

End Store.

(** ** Sample data *)

Module Sample.

Open Scope string_scope.

(** An image of the given shape whose sample at an index spells the index
    in decimal after [base]. *)
Definition image (sh : list nat) (base : Z) : ndarray :=
  {| shape := sh;
     item := fun idx =>
       base + fold_left (fun acc i => 10 * acc + Z.of_nat i) idx 0 |}.

(** A directory of four files: a 3x2 image, the same extent with a
    leading axis of length one, a single row of three samples, and a 2x2
    image. *)
Definition disk (path : string) : option ndarray :=
  if String.eqb path "a" then Some (image [3%nat; 2%nat] 100)
  else if String.eqb path "b" then Some (image [1%nat; 3%nat; 2%nat] 200)
  else if String.eqb path "c" then Some (image [1%nat; 3%nat] 300)
  else if String.eqb path "d" then Some (image [2%nat; 2%nat] 400)
  else None.

(** Truncating division as the rounding rule. *)
Definition floor_mean (sum count : Z) : Z := sum / count.

(** A volume of extent (2, 3, 3) with two levels, opened at level 0. *)
Definition volume : CloudVolume :=
  {| layer_cloudpath := "s3://bucket/layer";
     info :=
       {| num_channels := 1;
          layer_type := "image";
          data_type := "uint16";
          encoding := "raw";
          resolution := [1; 1; 1];
          scales :=
            [ {| factor := [1; 1; 1];
                 size := [2; 3; 3];
                 chunk_sizes := [128; 128; 16];
                 voxel_offset := [0; 0; 0] |};
              {| factor := [2; 2; 1];
                 size := [1; 2; 3];
                 chunk_sizes := [128; 128; 16];
                 voxel_offset := [0; 0; 0] |} ] |};
     mip := 0;
     parallel := true |}.

Definition base_scale : Scale :=
  {| factor := [1; 1; 1];
     size := [2; 3; 3];
     chunk_sizes := [128; 128; 16];
     voxel_offset := [0; 0; 0] |}.

End Sample.

(** ** The per-slice downsampling helper *)

Section Downsample.

(** The cast of a sample to the dtype of the destination arrays. *)
Variable cast : Z -> Z.

(** [tinybrain.downsample_with_averaging(image, factor, num_mips)]: the
    list of images the library returns. *)
Variable downsample_with_averaging : ndarray -> list Z -> Z -> list ndarray.

(** [out[:, :, z_idx] = v] for a three-dimensional [out] of any dtype. *)
Definition set_depth_slice_as (out : ndarray) (z_idx : Z) (v : ndarray)
  : result ndarray :=
  match shape out with
  | [X; Y; D] =>
      match Np.axis_index z_idx D with
      | Raise e => Raise e
      | Ok z =>
          if Np.broadcastable (shape v) [X; Y] then
            Ok {| shape := shape out;
                  item := fun idx =>
                    match idx with
                    | [x; y; k] =>
                        if (k =? z)%nat
                        then cast (item v (Np.broadcast_index (shape v)
                                             [x; y]))
                        else item out idx
                    | _ => item out idx
                    end |}
          else Raise ValueError
      end
  | _ => Raise IndexError
  end.

(** The array objects in memory, by identity.  An array passed twice is
    one object; each object owns its samples (views onto a common buffer
    are not modelled). *)
Definition heap : Type := nat -> ndarray.

(** The heap after the object [r] has been changed to [a]. *)
Definition heap_set (h : heap) (r : nat) (a : ndarray) : heap :=
  fun r' => if (r' =? r)%nat then a else h r'.

(** The loop of [downsample_image] over the levels: [out_arrays] is the
    list of references the caller passes, [h] the objects they refer to.
    The loop assigns in place into the object [out_arrays[i]]; the heap as
    the loop leaves it, and how it ended.  An exception keeps the
    assignments made before it. *)
Fixpoint downsample_loop (img_pyramid : list ndarray) (z_idx : Z)
    (levels : list Z) (out_arrays : list nat) (h : heap)
  : heap * result unit :=
  match levels with
  | [] => (h, Ok tt)
  | i :: levels' =>
      match get img_pyramid (Z.to_nat (i - 1)) with
      | Raise e => (h, Raise e)
      | Ok p =>
          match get out_arrays (Z.to_nat i) with
          | Raise e => (h, Raise e)
          | Ok r =>
              match set_depth_slice_as (h r) z_idx p with
              | Raise e => (h, Raise e)
              | Ok a' =>
                  downsample_loop img_pyramid z_idx levels' out_arrays
                    (heap_set h r a')
              end
          end
      end
  end.

(** [downsample_image(image, out_arrays, num_mips, z_idx, factor)] *)
Definition downsample_image (image : ndarray) (out_arrays : list nat)
    (h : heap) (num_mips : Z) (z_idx : Z) (factor : list Z)
  : heap * result unit :=
  let img_pyramid := downsample_with_averaging image factor num_mips in
  match Py.range 1 num_mips 1 with
  | Raise e => (h, Raise e)
  | Ok levels => downsample_loop img_pyramid z_idx levels out_arrays h
  end.

End Downsample.

(** ** Facts about ranges and slices *)

Section RangeFacts.

Lemma ceil_div_nonpos (a b : Z) : 0 < b -> a <= 0 -> ceil_div a b <= 0.
Proof.
  intros Hb Ha. unfold ceil_div.
  destruct (Z.eq_dec (a + b - 1) (b - 1)) as [->|Hne].
  - rewrite Z.div_small; lia.
  - assert ((a + b - 1) / b < 1); [|lia].
    apply Z.div_lt_upper_bound; lia.
Qed.

Lemma ceil_div_step (a b : Z) :
  0 < b -> 0 < a -> ceil_div a b = 1 + ceil_div (a - b) b.
Proof.
  intros Hb Ha. unfold ceil_div.
  replace (a + b - 1) with (1 * b + (a - b + b - 1)) by lia.
  rewrite Z.div_add_l; lia.
Qed.

Lemma ceil_div_nonneg (a b : Z) : 0 < b -> 0 <= a -> 0 <= ceil_div a b.
Proof. intros. unfold ceil_div. apply Z.div_pos; lia. Qed.

Lemma range_up_unfold (fuel : nat) (i stop step : Z) :
  0 < step -> stop - i <= Z.of_nat fuel ->
  Py.range_up fuel i stop step
  = map (fun k => i + Z.of_nat k * step)
        (seq 0 (Z.to_nat (ceil_div (stop - i) step))).
Proof.
  intros Hstep. revert i.
  induction fuel as [|fuel IH]; intros i Hfuel.
  - pose proof (ceil_div_nonpos (stop - i) step Hstep) as Hc.
    replace (Z.to_nat _) with O by lia. done.
  - simpl. destruct (Z.ltb_spec i stop) as [Hlt|Hge].
    + rewrite IH by lia.
      rewrite (ceil_div_step (stop - i) step) by lia.
      pose proof (ceil_div_nonneg (stop - i - step) step Hstep) as Hc.
      destruct (Z.le_gt_cases 0 (stop - i - step)) as [Hnn|Hneg].
      * replace (stop - (i + step)) with (stop - i - step) by lia.
        rewrite Z2Nat.inj_add by lia.
        change (Z.to_nat 1) with 1%nat. simpl.
        f_equal; [lia|].
        rewrite <- seq_shift, map_map.
        apply map_ext. intros k. lia.
      * pose proof (ceil_div_nonpos (stop - i - step) step Hstep) as Hc'.
        replace (stop - (i + step)) with (stop - i - step) by lia.
        replace (Z.to_nat (ceil_div (stop - i - step) step)) with O by lia.
        replace (Z.to_nat (1 + _)) with 1%nat.
        -- simpl. f_equal. lia.
        -- assert (ceil_div (stop - i - step) step = 0 \/
                   ceil_div (stop - i - step) step < 0) as [->| ?] by lia.
           ++ done.
           ++ exfalso. unfold ceil_div in *.
              assert (0 <= (stop - i - step + step - 1) / step); [|lia].
              apply Z.div_pos; lia.
    + pose proof (ceil_div_nonpos (stop - i) step Hstep) as Hc.
      replace (Z.to_nat _) with O by lia. done.
Qed.

End RangeFacts.

(** ** The batches *)

Lemma ceil_div_spec (a b : Z) :
  0 < b -> b * (ceil_div a b - 1) < a <= b * ceil_div a b.
Proof.
  intros Hb. unfold ceil_div.
  pose proof (Z.div_mod (a + b - 1) b ltac:(lia)) as Hdm.
  pose proof (Z.mod_pos_bound (a + b - 1) b Hb) as Hm.
  lia.
Qed.

Lemma slice_take_drop {A} (l : list A) (i n : Z) :
  0 <= i -> 0 <= n ->
  Py.slice l i (i + n) = take (Z.to_nat n) (drop (Z.to_nat i) l).
Proof.
  intros Hi Hn. unfold Py.slice, Py.slice_index.
  destruct (Z.ltb_spec i 0) as [?|_]; [lia|].
  destruct (Z.ltb_spec (i + n) 0) as [?|_]; [lia|].
  destruct (Z.le_gt_cases (Z.of_nat (length l)) i) as [Hout|Hin].
  - rewrite !Z.min_r by lia.
    rewrite Z.sub_diag. simpl. rewrite (drop_ge l (Z.to_nat i)) by lia.
    by rewrite take_nil.
  - rewrite (Z.min_l i) by lia.
    destruct (Z.le_gt_cases (i + n) (Z.of_nat (length l))) as [Hfit|Hcut].
    + rewrite Z.min_l by lia. do 2 f_equal. lia.
    + rewrite Z.min_r by lia.
      rewrite !take_ge; [done | | ]; rewrite length_drop; lia.
Qed.

Lemma chunks_pos {A} (l : list A) (n : Z) :
  0 < n ->
  chunks l n
  = Ok (map (fun k => take (Z.to_nat n) (drop (k * Z.to_nat n) l))
            (seq 0 (Z.to_nat (ceil_div (Z.of_nat (length l)) n)))).
Proof.
  intros Hn. unfold chunks, Py.range.
  destruct (Z.eqb_spec n 0) as [?|_]; [lia|].
  destruct (Z.ltb_spec 0 n) as [_|?]; [|lia].
  rewrite range_up_unfold by lia.
  rewrite Z.sub_0_r, map_map. f_equal.
  apply map_ext. intros k.
  rewrite slice_take_drop by lia. do 2 f_equal. lia.
Qed.

Lemma concat_batches {A} (l : list A) (n m : nat) :
  concat (map (fun k => take n (drop (k * n) l)) (seq 0 m)) = take (m * n) l.
Proof.
  induction m as [|m IH]; [done|].
  rewrite seq_S, map_app, concat_app, IH. simpl.
  rewrite app_nil_r.
  replace (n + m * n)%nat with (m * n + n)%nat by lia.
  by rewrite take_take_drop.
Qed.

Lemma batch_lookup {A} (l : list A) (n m i : nat) (b : list A) :
  map (fun k => take n (drop (k * n) l)) (seq 0 m) !! i = Some b ->
  (i < m)%nat /\ b = take n (drop (i * n) l).
Proof.
  intros H.
  change (map ?f ?x) with (f <$> x) in H.
  rewrite list_lookup_fmap in H.
  destruct (seq 0 m !! i) as [k|] eqn:Hk; [|done].
  apply lookup_seq in Hk as [-> ?]. simpl in H. by inversion H.
Qed.

(** C1. For every ordered file list of length N, [chunks] with the batch
    size 16 yields exactly ceil(N/16) batches; batch [i] is the contiguous
    run of the list that starts at depth [16 i]; the batches in order make
    up the list again, so every depth index lies in exactly one batch (the
    one numbered [k / 16]); every batch has between 1 and 16 files, and
    every batch but the last has exactly 16. *)
Theorem chunks_cover (A : Type) (files : list A) :
  exists batches : list (list A),
    chunks files CHUNK_SIZE = Ok batches /\
    Z.of_nat (length batches) = ceil_div (Z.of_nat (length files)) CHUNK_SIZE /\
    concat batches = files /\
    (forall i b, batches !! i = Some b ->
       b = take 16 (drop (16 * i)%nat files) /\
       (0 < length b <= 16)%nat /\
       (S i < length batches -> length b = 16)%nat) /\
    (forall k x, files !! k = Some x ->
       exists b, batches !! (k / 16)%nat = Some b /\
                 b !! (k mod 16)%nat = Some x) /\
    (forall k i b, batches !! i = Some b ->
       (16 * i <= k < 16 * i + length b)%nat -> i = (k / 16)%nat).
Proof.
  pose proof (ceil_div_spec (Z.of_nat (length files)) CHUNK_SIZE ltac:(done))
    as Hceil.
  pose proof (ceil_div_nonneg (Z.of_nat (length files)) CHUNK_SIZE
                ltac:(done) ltac:(lia)) as Hnn.
  set (m := Z.to_nat (ceil_div (Z.of_nat (length files)) CHUNK_SIZE)) in *.
  assert (Hm : Z.of_nat m = ceil_div (Z.of_nat (length files)) CHUNK_SIZE)
    by (subst m; lia).
  rewrite <- Hm in Hceil. clear Hnn.
  unfold CHUNK_SIZE in Hceil.
  exists (map (fun k => take 16 (drop (k * 16) files)) (seq 0 m)).
  assert (Hb : forall i b,
             map (fun k => take 16 (drop (k * 16) files)) (seq 0 m) !! i
             = Some b ->
             (i < m)%nat /\ b = take 16 (drop (16 * i)%nat files)).
  { intros i b H. apply batch_lookup in H as [? ->].
    split; [done|]. do 2 f_equal. lia. }
  repeat split.
  - rewrite chunks_pos by done. subst m. done.
  - rewrite length_map, length_seq. done.
  - rewrite concat_batches. apply take_ge. lia.
  - by apply Hb in H as [_ ->].
  - apply Hb in H as [? ->]. rewrite length_take, length_drop. lia.
  - apply Hb in H as [? ->]. rewrite length_take. lia.
  - rewrite length_map, length_seq.
    apply Hb in H as [? ->]. intros ?.
    rewrite length_take, length_drop. lia.
  - intros k x Hk.
    pose proof (lookup_lt_Some _ _ _ Hk) as Hlt.
    pose proof (Nat.div_mod_eq k 16) as Hdm.
    pose proof (Nat.mod_upper_bound k 16 ltac:(lia)) as Hmod.
    exists (take 16 (drop ((k / 16) * 16) files)). split.
    + change (map ?f ?x) with (f <$> x).
      rewrite list_lookup_fmap, lookup_seq_lt by lia. done.
    + rewrite lookup_take_lt by lia. rewrite lookup_drop.
      rewrite <- Hk. f_equal. lia.
  - intros k i b H Hr. apply Hb in H as [? ->].
    rewrite length_take, length_drop in Hr.
    apply (Nat.div_unique k 16 i (k - 16 * i)); lia.
Qed.

(** ** Loading a slice *)

Lemma set_depth_slice_frame (out v : ndarray) (z_idx : Z) (out' : ndarray) :
  Np.set_depth_slice out z_idx v = Ok out' ->
  exists X Y D z,
    shape out = [X; Y; D] /\ Np.axis_index z_idx D = Ok z /\
    Np.broadcastable (shape v) [X; Y] = true /\
    shape out' = shape out /\
    (forall idx, idx !! 2%nat <> Some z \/ length idx <> 3%nat ->
                 item out' idx = item out idx) /\
    (forall x y, item out' [x; y; z]
                 = Np.to_uint16 (item v (Np.broadcast_index (shape v) [x; y]))).
Proof.
  unfold Np.set_depth_slice. intros H.
  destruct (shape out) as [|X [|Y [|D [|? ?]]]] eqn:Hsh; try done.
  destruct (Np.axis_index z_idx D) as [z|] eqn:Hz; [|done].
  destruct (Np.broadcastable (shape v) [X; Y]) eqn:Hb; [|done].
  inversion H; subst out'; clear H. simpl.
  exists X, Y, D, z. repeat split; try done.
  - intros idx Hidx.
    destruct idx as [|x [|y [|k [|? ?]]]]; try done.
    destruct (Nat.eqb_spec k z) as [->|?]; [|done].
    destruct Hidx as [Hidx|Hidx]; simpl in Hidx; done.
  - intros x y. by rewrite Nat.eqb_refl.
Qed.

Lemma axis_index_of_nat (k D z : nat) :
  Np.axis_index (Z.of_nat k) D = Ok z -> z = k /\ (k < D)%nat.
Proof.
  unfold Np.axis_index. intros H.
  destruct (Z.ltb_spec (Z.of_nat k) (- Z.of_nat D)); simpl in H; [done|].
  destruct (Z.leb_spec (Z.of_nat D) (Z.of_nat k)); simpl in H; [done|].
  destruct (Z.ltb_spec (Z.of_nat k) 0); [lia|].
  inversion H. lia.
Qed.

Lemma load_image_to_array_inv fs path out z_idx tr out' :
  load_image_to_array fs path out z_idx tr = Ok out' ->
  exists a,
    fs path = Some a /\
    Np.set_depth_slice out z_idx
      (if tr then Np.transpose (Np.squeeze a) else Np.squeeze a) = Ok out'.
Proof.
  unfold load_image_to_array, open_image. intros H.
  destruct (fs path) as [a|]; [|done].
  exists a. split; [done|]. simpl in H. by destruct tr.
Qed.

Lemma enumerate_lookup {A} (l : list A) (i k : nat) (x : A) :
  Py.enumerate l !! i = Some (k, x) -> k = i /\ l !! i = Some x.
Proof.
  unfold Py.enumerate. rewrite list_lookup_imap.
  destruct (l !! i); simpl; [|done]. intros H. by inversion H.
Qed.

(** C8. A call [load_image_to_array(path, out_array, z_idx)] leaves the
    shape of [out_array] and every sample outside the depth slice [z_idx]
    as they were (whether it returns or raises); and the workers of one
    batch, which get their [z_idx] from [enumerate], get pairwise distinct
    depth indices, so that no sample is changed by two of them. *)
Theorem load_image_to_array_frame (fs : string -> option ndarray) :
  (forall path out_array z_idx tr,
     let out' :=
       array_after out_array
         (load_image_to_array fs path out_array z_idx tr) in
     shape out' = shape out_array /\
     forall idx,
       (forall D z, shape out_array !! 2%nat = Some D ->
                    Np.axis_index z_idx D = Ok z -> idx !! 2%nat <> Some z) ->
       item out' idx = item out_array idx) /\
  (forall (f : list string) i1 i2 k1 k2 p1 p2,
     Py.enumerate f !! i1 = Some (k1, p1) ->
     Py.enumerate f !! i2 = Some (k2, p2) ->
     i1 <> i2 ->
     k1 <> k2 /\
     forall out1 out2 idx,
       item (array_after out1
               (load_image_to_array fs p1 out1 (Z.of_nat k1) true)) idx
       <> item out1 idx ->
       item (array_after out2
               (load_image_to_array fs p2 out2 (Z.of_nat k2) true)) idx
       <> item out2 idx ->
       False).
Proof.
  assert (Hframe : forall path out_array z_idx tr,
     let out' :=
       array_after out_array
         (load_image_to_array fs path out_array z_idx tr) in
     shape out' = shape out_array /\
     forall idx,
       (forall D z, shape out_array !! 2%nat = Some D ->
                    Np.axis_index z_idx D = Ok z -> idx !! 2%nat <> Some z) ->
       item out' idx = item out_array idx).
  { intros path out z_idx tr.
    destruct (load_image_to_array fs path out z_idx tr) as [o|e] eqn:Hl;
      simpl; [|done].
    apply load_image_to_array_inv in Hl as (a & _ & Hs).
    apply set_depth_slice_frame in Hs
      as (X & Y & D & z & Hsh & Hz & _ & Hsh' & Hfr & _).
    split; [done|]. intros idx Hidx. apply Hfr. left.
    apply (Hidx D z); [by rewrite Hsh | done]. }
  split; [exact Hframe|].
  intros f i1 i2 k1 k2 p1 p2 H1 H2 Hne.
  apply enumerate_lookup in H1 as [-> _].
  apply enumerate_lookup in H2 as [-> _].
  split; [done|].
  intros out1 out2 idx Hc1 Hc2.
  destruct (Hframe p1 out1 (Z.of_nat i1) true) as [_ F1].
  destruct (Hframe p2 out2 (Z.of_nat i2) true) as [_ F2].
  destruct (decide (idx !! 2%nat = Some i1)) as [E1|N1].
  - apply Hc2, F2. intros D z _ Hz.
    apply axis_index_of_nat in Hz as [-> _]. congruence.
  - apply Hc1, F1. intros D z _ Hz.
    apply axis_index_of_nat in Hz as [-> _]. done.
Qed.

(** ** The extent of the volume *)

Lemma squeeze_no_singleton (a : ndarray) :
  Forall (fun d => d <> 1%nat) (shape (Np.squeeze a)).
Proof.
  simpl. apply Forall_forall. intros d Hd.
  apply list_elem_of_In, list_elem_of_filter in Hd. tauto.
Qed.

Lemma squeeze_trailing (a : ndarray) (X Y : nat) :
  X <> 1%nat -> Y <> 1%nat -> shape a = [X; Y; 1%nat] ->
  shape (Np.squeeze a) = [X; Y] /\
  forall x y, item (Np.squeeze a) [x; y] = item a [x; y; O].
Proof.
  intros HX HY Hsh. simpl. rewrite Hsh. split.
  - rewrite !filter_cons. repeat case_decide; done.
  - intros x y. simpl.
    destruct (Nat.eqb_spec X 1); [done|].
    destruct (Nat.eqb_spec Y 1); done.
Qed.

Lemma squeeze_leading (a : ndarray) (X Y : nat) :
  X <> 1%nat -> Y <> 1%nat -> shape a = [1%nat; X; Y] ->
  shape (Np.squeeze a) = [X; Y] /\
  forall x y, item (Np.squeeze a) [x; y] = item a [O; x; y].
Proof.
  intros HX HY Hsh. simpl. rewrite Hsh. split.
  - rewrite !filter_cons. repeat case_decide; done.
  - intros x y. simpl.
    destruct (Nat.eqb_spec X 1); [done|].
    destruct (Nat.eqb_spec Y 1); done.
Qed.

(** C10. [load_image] returns the decoded image with every axis of length
    one removed (and, by default, transposed), so that a file decoding to
    shape (X, Y, 1) or (1, X, Y), for extents X and Y other than one, is
    taken as the two-dimensional slice of shape (X, Y); and
    [get_image_dims] raises whenever the squeezed first file has not
    exactly two axes, in which case [main] ends with that error before it
    has committed a schema or written anything; otherwise it returns the
    extents of the transposed first slice and the number of files. *)
Theorem get_image_dims_squeezed (fs : string -> option ndarray)
    (round_mean : Z -> Z -> Z) :
  (forall path a, fs path = Some a ->
     load_image fs path false = Ok (Np.squeeze a) /\
     load_image fs path true = Ok (Np.transpose (Np.squeeze a)) /\
     shape (Np.squeeze a) = filter (fun d => d <> 1%nat) (shape a) /\
     Forall (fun d => d <> 1%nat) (shape (Np.squeeze a))) /\
  (forall a X Y, X <> 1%nat -> Y <> 1%nat ->
     shape a = [X; Y; 1%nat] \/ shape a = [1%nat; X; Y] ->
     shape (Np.squeeze a) = [X; Y] /\
     forall x y, item (Np.squeeze a) [x; y]
                 = if decide (shape a = [X; Y; 1%nat])
                   then item a [x; y; O] else item a [O; x; y]) /\
  (forall files f0 a, files !! 0%nat = Some f0 -> fs f0 = Some a ->
     (length (shape (Np.squeeze a)) <> 2%nat ->
      get_image_dims fs files = Raise ValueError /\
      forall voxel_dims precomputed_path,
        main fs round_mean files voxel_dims precomputed_path
        = ([], Raise ValueError)) /\
     (forall h w, shape (Np.squeeze a) = [h; w] ->
        shape (Np.transpose (Np.squeeze a)) = [w; h] /\
        get_image_dims fs files
        = Ok [Z.of_nat w; Z.of_nat h; Z.of_nat (length files)])).
Proof.
  split; [|split].
  - intros path a Hfs. unfold load_image, open_image. rewrite Hfs. simpl.
    repeat split; try done. apply squeeze_no_singleton.
  - intros a X Y HX HY [Hsh|Hsh].
    + destruct (squeeze_trailing a X Y HX HY Hsh) as [Hs Hi].
      split; [done|]. intros x y. by rewrite decide_True.
    + destruct (squeeze_leading a X Y HX HY Hsh) as [Hs Hi].
      split; [done|]. intros x y. rewrite decide_False; [done|].
      rewrite Hsh. intros E. inversion E. done.
  - intros files f0 a Hf0 Hfs.
    assert (Hdims : get_image_dims fs files
                    = match rev (shape (Np.squeeze a)) with
                      | [x; y] =>
                          Ok [Z.of_nat x; Z.of_nat y;
                              Z.of_nat (length files)]
                      | _ => Raise ValueError
                      end).
    { unfold get_image_dims, get, load_image, open_image.
      rewrite Hf0. simpl. rewrite Hfs. done. }
    split.
    + intros Hlen.
      assert (Hraise : get_image_dims fs files = Raise ValueError).
      { rewrite Hdims.
        pose proof (length_rev (shape (Np.squeeze a))) as Hr.
        destruct (rev (shape (Np.squeeze a))) as [|? [|? [|? ?]]];
          simpl in Hr; try done. }
      split; [done|]. intros voxel_dims precomputed_path.
      unfold main. rewrite Hraise. done.
    + intros h w Hsh. rewrite Hdims.
      change (shape (Np.transpose (Np.squeeze a)))
        with (rev (shape (Np.squeeze a))).
      rewrite Hsh. done.
Qed.

(** ** The writes of a run *)

Lemma for_each_emit {A} (body : A -> M unit) (g : A -> event) (l : list A) :
  (forall x, In x l -> body x = ([g x], Ok tt)) ->
  for_each body l = (map g l, Ok tt).
Proof.
  induction l as [|x l IH]; intros H; [done|].
  simpl. rewrite (H x) by (by left). simpl.
  rewrite IH; [done|]. intros y Hy. apply H. by right.
Qed.

Lemma pyramid_lookup rm (n j : nat) (b : ndarray) :
  (j < n)%nat -> pyramid rm n b !! j = Some (level_block rm (S j) b).
Proof.
  revert j b. induction n as [|n IH]; intros j b Hj; [lia|].
  destruct j as [|j]; [done|].
  simpl pyramid. rewrite lookup_cons. rewrite IH by lia.
  unfold level_block. by rewrite (Nat.iter_succ_r (S j)).
Qed.

Lemma pyramid_length rm (n : nat) (b : ndarray) :
  length (pyramid rm n b) = n.
Proof. revert b. induction n as [|n IH]; intros b; simpl; [done|]. by rewrite IH. Qed.

Lemma upload_batch_eq fs rm (vol : CloudVolume) (vols : list CloudVolume)
    (sz : list Z) (M0 : nat) (i : nat) (f : list string) :
  mip vol = O ->
  (forall l, (l < S M0)%nat ->
     vols !! l
     = Some (get_vol_at_mip (layer_cloudpath vol) (info vol) l true)) ->
  upload_batch fs rm vol vols sz (S M0) (i, f)
  = match fill_block fs sz f with
    | Raise e => ([], Raise e)
    | Ok blk =>
        (batch_writes rm (layer_cloudpath vol) (S M0) i (length f) blk, Ok tt)
    end.
Proof.
  intros Hmip Hvols. unfold upload_batch.
  destruct (fill_block fs sz f) as [blk|e]; [|done].
  simpl bind.
  rewrite (for_each_emit _
     (fun j => WriteBox (layer_cloudpath vol) (S j)
                 (Z.of_nat i * CHUNK_SIZE)
                 (Z.of_nat i * CHUNK_SIZE + Z.of_nat (length f))
                 (level_block rm (S j) blk))).
  - unfold batch_writes, write_slab. rewrite Hmip.
    rewrite Nat.sub_0_r. simpl. rewrite <- seq_shift, map_map. done.
  - intros j Hj. apply in_seq in Hj.
    unfold average_pooling_2x2, get.
    rewrite pyramid_lookup by lia. rewrite Hvols by lia.
    unfold write_slab. simpl. do 3 f_equal. lia.
Qed.

Lemma vols_lookup (path : string) (inf : Info) (n l : nat) :
  (l < n)%nat ->
  map (fun l => get_vol_at_mip path inf l true) (seq 0 n) !! l
  = Some (get_vol_at_mip path inf l true).
Proof.
  intros Hl. change (map ?g ?x) with (g <$> x).
  by rewrite list_lookup_fmap, lookup_seq_lt by lia.
Qed.

(** The run over the batches numbered from [k] on: the batches whose block
    could be filled, in order, each with one write per level; the run
    raises at the first batch whose block cannot be filled. *)
Lemma for_each_batches (fs : string -> option ndarray)
    (rm : Z -> Z -> Z) (vol : CloudVolume) (vols : list CloudVolume)
    (sz : list Z) (M0 : nat) (bs : list (list string)) :
  mip vol = O ->
  (forall l, (l < S M0)%nat ->
     vols !! l
     = Some (get_vol_at_mip (layer_cloudpath vol) (info vol) l true)) ->
  forall k : nat,
  exists blocks : list ndarray,
    Forall2 (fun f blk => fill_block fs sz f = Ok blk)
            (take (length blocks) bs) blocks /\
    fst (for_each (upload_batch fs rm vol vols sz (S M0))
                  (imap (fun i f => ((k + i)%nat, f)) bs))
    = concat (imap (fun i fb =>
                      batch_writes rm (layer_cloudpath vol) (S M0) (k + i)
                                   (length (fst fb)) (snd fb))
                   (zip bs blocks)) /\
    match snd (for_each (upload_batch fs rm vol vols sz (S M0))
                        (imap (fun i f => ((k + i)%nat, f)) bs)) with
    | Ok _ => length blocks = length bs
    | Raise e =>
        exists f, bs !! (length blocks) = Some f /\ fill_block fs sz f = Raise e
    end.
Proof.
  intros Hmip Hvols.
  induction bs as [|f bs IH]; intros k.
  - exists []. simpl. repeat split; constructor.
  - rewrite imap_cons.
    assert (Himap : imap ((fun i f0 => ((k + i)%nat, f0)) ∘ S) bs
                    = imap (fun i f0 => ((S k + i)%nat, f0)) bs).
    { apply imap_ext. intros i x _. simpl. f_equal. lia. }
    rewrite Himap. cbn [for_each].
    rewrite (upload_batch_eq fs rm vol vols sz M0 (k + 0) f Hmip Hvols).
    destruct (fill_block fs sz f) as [blk|e] eqn:Hfill.
    + destruct (IH (S k)) as (blocks & Hall & Htr & Hres).
      exists (blk :: blocks).
      destruct (for_each (upload_batch fs rm vol vols sz (S M0))
                  (imap (fun i f0 => ((S k + i)%nat, f0)) bs))
        as [tr r] eqn:Hrun.
      simpl in Htr, Hres. simpl. repeat split.
      * by constructor.
      * rewrite Htr, Nat.add_0_r. do 2 f_equal. apply (f_equal (@concat _)).
        apply imap_ext. intros i x _. simpl. f_equal; lia.
      * destruct r; [by f_equal | done].
    + exists []. simpl. repeat split; [constructor|].
      exists f. done.
Qed.

Lemma load_worker (fs : string -> option ndarray) (X Y D k : nat)
    (p : string) (tmp : ndarray) :
  shape tmp = [X; Y; D] -> (k < D)%nat ->
  if slice_raises fs X Y p
  then exists e, load_image_to_array fs p tmp (Z.of_nat k) true = Raise e
  else exists out, load_image_to_array fs p tmp (Z.of_nat k) true = Ok out /\
                   shape out = [X; Y; D].
Proof.
  intros Hsh Hk.
  unfold slice_raises, load_image, load_image_to_array, open_image.
  destruct (fs p) as [a|]; simpl; [|by eexists].
  unfold Np.set_depth_slice. rewrite Hsh.
  assert (Hz : Np.axis_index (Z.of_nat k) D = Ok k).
  { unfold Np.axis_index.
    destruct (Z.ltb_spec (Z.of_nat k) (- Z.of_nat D)); [lia|].
    destruct (Z.leb_spec (Z.of_nat D) (Z.of_nat k)); [lia|]. simpl.
    destruct (Z.ltb_spec (Z.of_nat k) 0); [lia|]. f_equal. lia. }
  rewrite Hz.
  destruct (Np.broadcastable _ [X; Y]); simpl; by eexists.
Qed.

Lemma run_workers_ok (fs : string -> option ndarray) (X Y D : nat)
    (jobs : list (nat * string)) :
  forall tmp, shape tmp = [X; Y; D] ->
  (forall k p, In (k, p) jobs -> (k < D)%nat) ->
  (forall k p, In (k, p) jobs -> slice_raises fs X Y p = false) ->
  exists out, run_workers fs jobs tmp = Ok out /\ shape out = [X; Y; D].
Proof.
  induction jobs as [|[k p] jobs IH]; intros tmp Hsh Hk Hok.
  - by exists tmp.
  - simpl.
    pose proof (load_worker fs X Y D k p tmp Hsh (Hk k p (or_introl eq_refl)))
      as Hw.
    rewrite (Hok k p (or_introl eq_refl)) in Hw.
    destruct Hw as (out & -> & Hsh'). simpl.
    apply IH; [done | |]; intros k' p' Hin; [apply (Hk k' p')|apply Hok with k'];
      by right.
Qed.

Lemma run_workers_raises (fs : string -> option ndarray) (X Y D : nat)
    (jobs : list (nat * string)) :
  forall tmp, shape tmp = [X; Y; D] ->
  (forall k p, In (k, p) jobs -> (k < D)%nat) ->
  (exists k p, In (k, p) jobs /\ slice_raises fs X Y p = true) ->
  exists e, run_workers fs jobs tmp = Raise e.
Proof.
  induction jobs as [|[k p] jobs IH]; intros tmp Hsh Hk (k0 & p0 & Hin & Hr).
  - destruct Hin.
  - simpl.
    pose proof (load_worker fs X Y D k p tmp Hsh (Hk k p (or_introl eq_refl)))
      as Hw.
    destruct (slice_raises fs X Y p) eqn:Hp.
    + destruct Hw as [e ->]. by exists e.
    + destruct Hw as (out & -> & Hsh'). simpl.
      apply IH; [done | |].
      * intros k' p' Hin'. apply (Hk k' p'). by right.
      * destruct Hin as [E|Hin]; [inversion E; congruence|].
        by exists k0, p0.
Qed.

Lemma enumerate_In {A} (l : list A) (k : nat) (x : A) :
  In (k, x) (Py.enumerate l) <-> l !! k = Some x.
Proof.
  rewrite <- list_elem_of_In, list_elem_of_lookup. split.
  - intros [i Hi]. by apply enumerate_lookup in Hi as [-> ?].
  - intros H. exists k. unfold Py.enumerate.
    by rewrite list_lookup_imap, H.
Qed.

Lemma fill_block_eq (fs : string -> option ndarray) (sz : list Z)
    (X Y : nat) (f : list string) :
  sz !! 0%nat = Some (Z.of_nat X) -> sz !! 1%nat = Some (Z.of_nat Y) ->
  fill_block fs sz f
  = run_workers fs (Py.enumerate f) (Np.zeros [X; Y; length f]).
Proof.
  intros H0 H1. unfold fill_block, get, to_dim. rewrite H0, H1. simpl.
  destruct (Z.ltb_spec (Z.of_nat X) 0); [lia|].
  destruct (Z.ltb_spec (Z.of_nat Y) 0); [lia|]. simpl.
  by rewrite !Nat2Z.id.
Qed.

Lemma fill_block_ok (fs : string -> option ndarray) (sz : list Z)
    (X Y : nat) (f : list string) :
  sz !! 0%nat = Some (Z.of_nat X) -> sz !! 1%nat = Some (Z.of_nat Y) ->
  (forall p, In p f -> slice_raises fs X Y p = false) ->
  exists blk, fill_block fs sz f = Ok blk /\ shape blk = [X; Y; length f].
Proof.
  intros H0 H1 Hok. rewrite (fill_block_eq fs sz X Y f H0 H1).
  apply run_workers_ok; [done | |].
  - intros k p Hin. apply enumerate_In in Hin. by eapply lookup_lt_Some.
  - intros k p Hin. apply enumerate_In in Hin. apply Hok.
    apply list_elem_of_In. by eapply list_elem_of_lookup_2.
Qed.

Lemma fill_block_raises (fs : string -> option ndarray) (sz : list Z)
    (X Y : nat) (f : list string) (p : string) :
  sz !! 0%nat = Some (Z.of_nat X) -> sz !! 1%nat = Some (Z.of_nat Y) ->
  In p f -> slice_raises fs X Y p = true ->
  exists e, fill_block fs sz f = Raise e.
Proof.
  intros H0 H1 Hin Hr. rewrite (fill_block_eq fs sz X Y f H0 H1).
  apply (run_workers_raises fs X Y (length f)); [done | |].
  - intros k q Hq. apply enumerate_In in Hq. by eapply lookup_lt_Some.
  - apply list_elem_of_In, list_elem_of_lookup in Hin as [k Hk].
    exists k, p. split; [by apply enumerate_In | done].
Qed.

Lemma chunk_batch_length {A} (files : list A) (bs : list (list A))
    (i : nat) (f : list A) :
  chunks files CHUNK_SIZE = Ok bs -> bs !! i = Some f ->
  (0 < length f <= 16)%nat /\ (S i < length bs -> length f = 16)%nat.
Proof.
  intros Hc Hf. rewrite chunks_pos in Hc by done.
  injection Hc as Hbs. subst bs.
  pose proof (ceil_div_spec (Z.of_nat (length files)) CHUNK_SIZE ltac:(done))
    as Hceil.
  pose proof (ceil_div_nonneg (Z.of_nat (length files)) CHUNK_SIZE
                ltac:(done) ltac:(lia)) as Hnn.
  apply batch_lookup in Hf as [Hi ->].
  rewrite length_map, length_seq, length_take, length_drop.
  change (Z.to_nat CHUNK_SIZE) with 16%nat in *.
  unfold CHUNK_SIZE in *. lia.
Qed.

(** The writes of a run of [upload_image_to_volume]: batch after batch, for
    the batches whose block could be filled, one write per level. *)
Lemma upload_trace (fs : string -> option ndarray) (rm : Z -> Z -> Z)
    (vol : CloudVolume) (files : list string) (sc0 : Scale) :
  mip vol = O -> scales (info vol) !! 0%nat = Some sc0 ->
  exists (batches : list (list string)) (blocks : list ndarray),
    chunks files CHUNK_SIZE = Ok batches /\
    Forall2 (fun f blk => fill_block fs (size sc0) f = Ok blk)
            (take (length blocks) batches) blocks /\
    fst (upload_image_to_volume fs rm vol files)
    = concat (imap (fun i fb =>
                      batch_writes rm (layer_cloudpath vol)
                        (length (scales (info vol))) i
                        (length (fst fb)) (snd fb))
                   (zip batches blocks)) /\
    match snd (upload_image_to_volume fs rm vol files) with
    | Ok _ => length blocks = length batches
    | Raise e =>
        exists f, batches !! (length blocks) = Some f /\
                  fill_block fs (size sc0) f = Raise e
    end.
Proof.
  intros Hmip Hsc.
  destruct (length (scales (info vol))) as [|M0] eqn:HM.
  { apply lookup_lt_Some in Hsc. lia. }
  pose proof (chunks_pos files CHUNK_SIZE ltac:(done)) as Hch.
  set (batches := map _ _) in Hch.
  destruct (for_each_batches fs rm vol
              (map (fun l => get_vol_at_mip (layer_cloudpath vol) (info vol)
                               l true) (seq 0 (S M0)))
              (size sc0) M0 batches Hmip
              (fun l Hl => vols_lookup _ _ _ _ Hl) O)
    as (blocks & Hall & Htr & Hres).
  exists batches, blocks.
  assert (Hrun : upload_image_to_volume fs rm vol files
                 = for_each
                     (upload_batch fs rm vol
                        (map (fun l => get_vol_at_mip (layer_cloudpath vol)
                                         (info vol) l true) (seq 0 (S M0)))
                        (size sc0) (S M0))
                     (imap (fun i f => ((0 + i)%nat, f)) batches)).
  { unfold upload_image_to_volume, get. rewrite Hsc, Hch, HM.
    unfold lift, bind. simpl app.
    by destruct (for_each _ _). }
  rewrite Hrun. done.
Qed.

Lemma in_concat_imap {A B} (g : nat -> A -> list B) (l : list A) (y : B) :
  In y (concat (imap g l)) ->
  exists i x, l !! i = Some x /\ In y (g i x).
Proof.
  revert g. induction l as [|x l IH]; intros g H; [done|].
  rewrite imap_cons in H. simpl in H. apply in_app_or in H as [H|H].
  - by exists O, x.
  - apply IH in H as (i & x' & Hl & Hin). by exists (S i), x'.
Qed.

(** Every write of a run belongs to a batch: it covers the depth range of
    that batch, at a declared level, with the block of that level. *)
Lemma upload_write_inv (fs : string -> option ndarray) (rm : Z -> Z -> Z)
    (vol : CloudVolume) (files : list string) (sc0 : Scale)
    (batches : list (list string)) (ev : event) :
  mip vol = O -> scales (info vol) !! 0%nat = Some sc0 ->
  chunks files CHUNK_SIZE = Ok batches ->
  In ev (fst (upload_image_to_volume fs rm vol files)) ->
  exists i f blk lvl,
    batches !! i = Some f /\ fill_block fs (size sc0) f = Ok blk /\
    (lvl < length (scales (info vol)))%nat /\
    (forall j g, (j <= i)%nat -> batches !! j = Some g ->
                 is_ok (fill_block fs (size sc0) g) = true) /\
    ev = WriteBox (layer_cloudpath vol) lvl (Z.of_nat i * CHUNK_SIZE)
           (Z.of_nat i * CHUNK_SIZE + Z.of_nat (length f))
           (level_block rm lvl blk).
Proof.
  intros Hmip Hsc Hch Hin.
  destruct (upload_trace fs rm vol files sc0 Hmip Hsc)
    as (bs & blocks & Hch' & Hall & Htr & _).
  rewrite Hch in Hch'. inversion Hch'; subst bs; clear Hch'.
  rewrite Htr in Hin.
  apply in_concat_imap in Hin as (i & [f blk] & Hz & Hin).
  apply lookup_zip_with_Some in Hz as (f' & blk' & E & Hf & Hblk).
  inversion E; subst f' blk'; clear E.
  unfold batch_writes in Hin. simpl in Hin.
  apply in_map_iff in Hin as (lvl & <- & Hlvl). apply in_seq in Hlvl.
  exists i, f, blk, lvl. repeat split; try done; try lia.
  - eapply Forall2_lookup_lr in Hall; [exact Hall | | exact Hblk].
    rewrite lookup_take_lt; [done|]. by eapply lookup_lt_Some.
  - intros j g Hj Hg.
    assert (Hjb : (j < length blocks)%nat)
      by (apply lookup_lt_Some in Hblk; lia).
    destruct (lookup_lt_is_Some_2 blocks j Hjb) as [b Hb].
    eapply Forall2_lookup_lr in Hall; [| | exact Hb].
    + by rewrite Hall.
    + by rewrite lookup_take_lt.
Qed.

Lemma chunk_batch_incl {A} (files : list A) (bs : list (list A))
    (i : nat) (f : list A) (x : A) :
  chunks files CHUNK_SIZE = Ok bs -> bs !! i = Some f -> In x f -> In x files.
Proof.
  intros Hc Hf Hx. rewrite chunks_pos in Hc by done.
  injection Hc as Hbs. subst bs.
  apply batch_lookup in Hf as [_ ->].
  apply list_elem_of_In, elem_of_take in Hx as (k & Hk & _).
  rewrite lookup_drop in Hk.
  apply list_elem_of_In. by eapply list_elem_of_lookup_2.
Qed.

(** C3. In a run of [upload_image_to_volume] on a volume opened at level
    0, the writes are, batch after batch in the order of the batches, one
    bulk write per declared level from level 0 up to the last, all of them
    over the depth range [16 i, 16 i + batch_len) of the batch, unscaled,
    and over the whole X/Y extent of the level; level [lvl] receives the
    block averaged [lvl] times from the batch's block.  The run raises at
    the first batch whose block cannot be filled, and when every file
    loads, every batch is written and the run returns. *)
Theorem upload_writes_every_level (fs : string -> option ndarray)
    (rm : Z -> Z -> Z) (vol : CloudVolume) (files : list string)
    (sc0 : Scale) :
  mip vol = O -> scales (info vol) !! 0%nat = Some sc0 ->
  exists (batches : list (list string)) (blocks : list ndarray),
    chunks files CHUNK_SIZE = Ok batches /\
    Forall2 (fun f blk => fill_block fs (size sc0) f = Ok blk)
            (take (length blocks) batches) blocks /\
    fst (upload_image_to_volume fs rm vol files)
    = concat (imap (fun i fb =>
                      batch_writes rm (layer_cloudpath vol)
                        (length (scales (info vol))) i
                        (length (fst fb)) (snd fb))
                   (zip batches blocks)) /\
    match snd (upload_image_to_volume fs rm vol files) with
    | Ok _ => length blocks = length batches
    | Raise e =>
        exists f, batches !! (length blocks) = Some f /\
                  fill_block fs (size sc0) f = Raise e
    end /\
    forall X Y,
      size sc0 !! 0%nat = Some (Z.of_nat X) ->
      size sc0 !! 1%nat = Some (Z.of_nat Y) ->
      (forall p, In p files -> slice_raises fs X Y p = false) ->
      length blocks = length batches /\
      snd (upload_image_to_volume fs rm vol files) = Ok tt.
Proof.
  intros Hmip Hsc.
  destruct (upload_trace fs rm vol files sc0 Hmip Hsc)
    as (batches & blocks & Hch & Hall & Htr & Hres).
  exists batches, blocks. repeat split; try done.
  - destruct (snd (upload_image_to_volume fs rm vol files)) as [u|e];
      [done|].
    destruct Hres as (f & Hf & Hraise).
    destruct (fill_block_ok fs (size sc0) X Y f H H0) as (blk & Hok & _).
    + intros p Hp. apply H1. eapply chunk_batch_incl; eauto.
    + congruence.
  - destruct (snd (upload_image_to_volume fs rm vol files)) as [[]|e];
      [done|].
    destruct Hres as (f & Hf & Hraise).
    destruct (fill_block_ok fs (size sc0) X Y f H H0) as (blk & Hok & _).
    + intros p Hp. apply H1. eapply chunk_batch_incl; eauto.
    + congruence.
Qed.

(** C5, as the code has it.  If a file of batch [i] is unreadable, or its
    squeezed and transposed slice cannot be assigned to a region of the
    declared extent (X, Y), the run raises, and every write it has issued
    lies below the depth range of batch [i]: nothing is written for that
    batch at any level. *)
Theorem failed_batch_writes_nothing (fs : string -> option ndarray)
    (rm : Z -> Z -> Z) (vol : CloudVolume) (files : list string)
    (sc0 : Scale) (batches : list (list string)) (X Y i : nat)
    (f : list string) (p : string) :
  mip vol = O -> scales (info vol) !! 0%nat = Some sc0 ->
  size sc0 !! 0%nat = Some (Z.of_nat X) ->
  size sc0 !! 1%nat = Some (Z.of_nat Y) ->
  chunks files CHUNK_SIZE = Ok batches ->
  batches !! i = Some f -> In p f -> slice_raises fs X Y p = true ->
  (exists e, snd (upload_image_to_volume fs rm vol files) = Raise e) /\
  forall path lvl z0 z1 img,
    In (WriteBox path lvl z0 z1 img)
       (fst (upload_image_to_volume fs rm vol files)) ->
    z1 <= Z.of_nat i * CHUNK_SIZE.
Proof.
  intros Hmip Hsc HX HY Hch Hf Hp Hr.
  destruct (fill_block_raises fs (size sc0) X Y f p HX HY Hp Hr)
    as [e He].
  split.
  - destruct (upload_trace fs rm vol files sc0 Hmip Hsc)
      as (bs & blocks & Hch' & Hall & _ & Hres).
    rewrite Hch in Hch'. injection Hch' as <-.
    destruct (snd (upload_image_to_volume fs rm vol files)) as [u|e'];
      [|by exists e'].
    exfalso.
    assert (Hi : (i < length blocks)%nat)
      by (rewrite Hres; by eapply lookup_lt_Some).
    destruct (lookup_lt_is_Some_2 blocks i Hi) as [b Hb].
    assert (Hfb : fill_block fs (size sc0) f = Ok b).
    { apply (Forall2_lookup_lr _ _ _ i f b Hall); [|done].
      by rewrite lookup_take_lt. }
    congruence.
  - intros path lvl z0 z1 img Hin.
    destruct (upload_write_inv fs rm vol files sc0 batches _
                Hmip Hsc Hch Hin)
      as (i' & f' & blk & lvl' & Hf' & _ & _ & Hpre & Hev).
    injection Hev as _ _ _ -> _.
    destruct (Nat.lt_ge_cases i' i) as [Hlt|Hge].
    + destruct (chunk_batch_length files batches i' f' Hch Hf') as [Hlen _].
      unfold CHUNK_SIZE. lia.
    + specialize (Hpre i f Hge Hf). rewrite He in Hpre. done.
Qed.

(** ** The schema *)

Lemma ceil_div_1 (a : Z) : ceil_div a 1 = a.
Proof. unfold ceil_div. rewrite Z.div_1_r. lia. Qed.

Lemma pow2_inj (i j : nat) : pow2 i = pow2 j -> i = j.
Proof.
  unfold pow2. intros H.
  apply Z.pow_inj_r in H; lia.
Qed.

Lemma put_scale_fresh (sc : Scale) (l : list Scale) :
  Forall (fun s => factor s <> factor sc) l ->
  Cv.put_scale sc l = l ++ [sc].
Proof.
  induction 1 as [|s l Hs _ IH]; [done|].
  simpl. rewrite decide_False by done. by rewrite IH.
Qed.

Lemma scales_fold (inf : Info) (base : Scale) (X Y D : Z) (n : nat) :
  scales inf = [base] -> factor base = [1; 1; 1] -> size base = [X; Y; D] ->
  scales (fold_left (fun inf i => Cv.add_scale inf [pow2 i; pow2 i; 1])
                    (seq 0 (S n)) inf)
  = map (fun i => Cv.derived_scale base [pow2 i; pow2 i; 1]) (seq 0 (S n)).
Proof.
  intros Hsc Hf Hsz.
  induction n as [|n IH].
  - simpl. unfold Cv.add_scale. rewrite Hsc. simpl.
    rewrite decide_True; [done|]. by rewrite Hf.
  - rewrite seq_S, fold_left_app, map_app.
    remember (fold_left _ (seq 0 (S n)) inf) as prev eqn:Hprev.
    cbn [fold_left]. unfold Cv.add_scale. rewrite IH.
    change (seq 0 (S n)) with (O :: seq 1 n) at 1. cbn [map scales].
    assert (Hd : Cv.derived_scale
                   (Cv.derived_scale base [pow2 0; pow2 0; 1])
                   [pow2 (0 + S n); pow2 (0 + S n); 1]
                 = Cv.derived_scale base [pow2 (0 + S n); pow2 (0 + S n); 1]).
    { unfold Cv.derived_scale. cbn [size chunk_sizes voxel_offset].
      rewrite Hsz. cbn [zip_with].
      change (pow2 0) with 1. by rewrite !ceil_div_1. }
    rewrite Hd.
    change (Cv.derived_scale base [pow2 0; pow2 0; 1]
            :: map (fun i => Cv.derived_scale base [pow2 i; pow2 i; 1])
                 (seq 1 n))
      with (map (fun i => Cv.derived_scale base [pow2 i; pow2 i; 1])
                (seq 0 (S n))).
    rewrite put_scale_fresh; [done|].
    apply Forall_forall. intros s Hs.
    apply in_map_iff in Hs as (i & <- & Hi). apply in_seq in Hi.
    simpl. intros E. injection E as E _. apply pow2_inj in E. lia.
Qed.

Lemma put_scale_invariant (P : Scale -> Prop) (sc : Scale) (l : list Scale) :
  P sc -> Forall P l -> Forall P (Cv.put_scale sc l).
Proof.
  intros Hsc. induction 1 as [|s l Hs Hl IH]; simpl.
  - by constructor.
  - case_decide; by constructor.
Qed.

(** Every level that [add_scale] stores has the chunk shape and the origin
    of the levels already there. *)
Lemma scales_fold_invariant (chunk origin : list Z) (fs : list (list Z))
    (inf : Info) :
  scales inf <> [] ->
  Forall (fun s => chunk_sizes s = chunk /\ voxel_offset s = origin)
         (scales inf) ->
  scales (fold_left Cv.add_scale fs inf) <> [] /\
  Forall (fun s => chunk_sizes s = chunk /\ voxel_offset s = origin)
         (scales (fold_left Cv.add_scale fs inf)).
Proof.
  revert inf. induction fs as [|f fs IH]; intros inf Hne Hall; [done|].
  simpl. apply IH.
  - unfold Cv.add_scale. destruct (scales inf) as [|full l] eqn:E; [done|].
    simpl. case_decide; [done|]. done.
  - unfold Cv.add_scale. destruct (scales inf) as [|full l] eqn:E; [done|].
    cbn [scales]. apply put_scale_invariant; [|done].
    simpl. by inversion Hall.
Qed.

Lemma fold_add_scale_seq (inf : Info) (n : nat) :
  fold_left (fun inf i => Cv.add_scale inf [pow2 i; pow2 i; 1]) (seq 0 n) inf
  = fold_left Cv.add_scale (map (fun i => [pow2 i; pow2 i; 1]) (seq 0 n)) inf.
Proof.
  generalize 0%nat. revert inf.
  induction n as [|n IH]; intros inf k; [done|]. simpl. apply IH.
Qed.

Lemma create_cloud_volume_eq (path : string) (img_size voxel : list Z)
    (n : nat) (par : bool) :
  exists vol,
    create_cloud_volume path img_size voxel n par
    = ([CommitInfo path (info vol)], Ok vol) /\
    mip vol = O /\ layer_cloudpath vol = path /\
    info vol
    = fold_left (fun inf i => Cv.add_scale inf [pow2 i; pow2 i; 1])
        (seq 0 n)
        (Cv.create_new_info 1 "image" "uint16" "raw" voxel [0; 0; 0]
           [CHUNK_SIZE * 8; CHUNK_SIZE * 8; CHUNK_SIZE] img_size) /\
    (exists sc0, scales (info vol) !! 0%nat = Some sc0) /\
    Forall (fun s => chunk_sizes s = [128; 128; 16] /\
                     voxel_offset s = [0; 0; 0])
           (scales (info vol)).
Proof.
  exists {| layer_cloudpath := path;
            info :=
              fold_left (fun inf i => Cv.add_scale inf [pow2 i; pow2 i; 1])
                (seq 0 n)
                (Cv.create_new_info 1 "image" "uint16" "raw" voxel [0; 0; 0]
                   [CHUNK_SIZE * 8; CHUNK_SIZE * 8; CHUNK_SIZE] img_size);
            mip := 0;
            parallel := par |}.
  cbn [mip layer_cloudpath info]. repeat split.
  - rewrite fold_add_scale_seq.
    match goal with |- context [fold_left _ ?l ?i] =>
      destruct (scales_fold_invariant [128; 128; 16] [0; 0; 0] l i)
        as [Hne _]
    end; [done | by repeat constructor |].
    destruct (scales _) as [|sc0 ?]; [done|]. by exists sc0.
  - rewrite fold_add_scale_seq.
    match goal with |- context [fold_left _ ?l ?i] =>
      destruct (scales_fold_invariant [128; 128; 16] [0; 0; 0] l i)
        as [_ Hall]
    end; [done | by repeat constructor |]. done.
Qed.

Lemma main_trace (fs : string -> option ndarray) (rm : Z -> Z -> Z)
    (files : list string) (voxel_dims : result (list Z)) (path : string) :
  fst (main fs rm files voxel_dims path) = [] \/
  exists inf tr,
    fst (main fs rm files voxel_dims path) = CommitInfo path inf :: tr /\
    forall ev, In ev tr ->
      exists lvl z0 z1 img, ev = WriteBox path lvl z0 z1 img.
Proof.
  unfold main.
  destruct (get_image_dims fs files) as [img_size|e]; [|by left].
  destruct voxel_dims as [voxel|e]; [|by left].
  right.
  destruct (create_cloud_volume_eq path img_size voxel 6 true)
    as (vol & Hc & Hmip & Hpath & _ & (sc0 & Hsc) & _).
  unfold lift, bind at 1 2. unfold bind. rewrite Hc.
  destruct (upload_image_to_volume fs rm vol files) as [tr r] eqn:Hu.
  exists (info vol), tr. split; [done|].
  intros ev Hin.
  pose proof (chunks_pos files CHUNK_SIZE ltac:(done)) as Hch.
  assert (Hin' : In ev (fst (upload_image_to_volume fs rm vol files)))
    by (by rewrite Hu).
  destruct (upload_write_inv fs rm vol files sc0 _ ev Hmip Hsc Hch Hin')
    as (i & f & blk & lvl & _ & _ & _ & _ & ->).
  rewrite Hpath. by eexists _, _, _, _.
Qed.

(** C6. [create_cloud_volume] commits the schema once; the schema has the
    levels [0 .. num_levels), level [i] with the downsample factor
    (2^i, 2^i, 1), the extent of the volume divided by it and rounded up (Z
    unchanged), the base chunk shape (128, 128, 16) and the origin
    (0, 0, 0), both shared by all levels; and in a run of [main] the commit
    is the first thing done to the store, everything after it being a
    write. *)
Theorem schema_committed_once :
  (forall (path : string) (X Y D : Z) (voxel : list Z) (n : nat)
          (par : bool),
     exists vol,
       create_cloud_volume path [X; Y; D] voxel n par
       = ([CommitInfo path (info vol)], Ok vol) /\
       length (scales (info vol)) = Nat.max n 1 /\
       forall i, (i < Nat.max n 1)%nat ->
         scales (info vol) !! i
         = Some {| factor := [pow2 i; pow2 i; 1];
                   size := [ceil_div X (pow2 i); ceil_div Y (pow2 i); D];
                   chunk_sizes := [128; 128; 16];
                   voxel_offset := [0; 0; 0] |}) /\
  (forall (fs : string -> option ndarray) (rm : Z -> Z -> Z)
          (files : list string) (voxel_dims : result (list Z))
          (path : string),
     fst (main fs rm files voxel_dims path) = [] \/
     exists inf tr,
       fst (main fs rm files voxel_dims path) = CommitInfo path inf :: tr /\
       forall ev, In ev tr ->
         exists lvl z0 z1 img, ev = WriteBox path lvl z0 z1 img).
Proof.
  split; [|exact main_trace].
  intros path X Y D voxel n par.
  destruct (create_cloud_volume_eq path [X; Y; D] voxel n par)
    as (vol & Hc & _ & _ & Hinfo & _ & _).
  exists vol. split; [done|].
  destruct n as [|n].
  - rewrite Hinfo. simpl. split; [done|].
    intros i Hi. assert (i = O) as -> by lia. simpl.
    change (pow2 0) with 1. by rewrite !ceil_div_1.
  - rewrite Hinfo.
    rewrite (scales_fold _
               {| factor := [1; 1; 1]; size := [X; Y; D];
                  chunk_sizes := [CHUNK_SIZE * 8; CHUNK_SIZE * 8; CHUNK_SIZE];
                  voxel_offset := [0; 0; 0] |} X Y D n) by done.
    rewrite length_map, length_seq. split; [lia|].
    intros i Hi.
    change (map ?g ?x) with (g <$> x).
    rewrite list_lookup_fmap, lookup_seq_lt by lia.
    cbn -[ceil_div pow2]. unfold Cv.derived_scale.
    cbn -[ceil_div pow2]. by rewrite ceil_div_1.
Qed.

(** C9. The batch size is the depth of the chunks: every level of the
    schema that [create_cloud_volume] commits has the chunk shape
    (CHUNK_SIZE*8, CHUNK_SIZE*8, CHUNK_SIZE), and the batches are cut by
    CHUNK_SIZE.  So a write of a run of [upload_image_to_volume] covers the
    depth range of one batch [i]: it starts at [16 i], on a chunk boundary
    in Z; it is at most one chunk deep, exactly one for every batch but
    the last; and all its depths lie in chunk layer [i], and so in no layer
    another batch writes to. *)
Theorem batches_fill_chunk_layers :
  (forall (path : string) (img_size voxel : list Z) (n : nat) (par : bool),
     exists vol,
       create_cloud_volume path img_size voxel n par
       = ([CommitInfo path (info vol)], Ok vol) /\
       Forall (fun s =>
                 chunk_sizes s
                 = [CHUNK_SIZE * 8; CHUNK_SIZE * 8; CHUNK_SIZE] /\
                 chunk_sizes s !! 2%nat = Some CHUNK_SIZE)
              (scales (info vol))) /\
  (forall (fs : string -> option ndarray) (rm : Z -> Z -> Z)
          (vol : CloudVolume) (files : list string) (sc0 : Scale)
          (batches : list (list string))
          (path : string) (lvl : nat) (z0 z1 : Z) (img : ndarray),
     mip vol = O -> scales (info vol) !! 0%nat = Some sc0 ->
     chunks files CHUNK_SIZE = Ok batches ->
     In (WriteBox path lvl z0 z1 img)
        (fst (upload_image_to_volume fs rm vol files)) ->
     exists (i : nat) (f : list string),
       batches !! i = Some f /\
       z0 = CHUNK_SIZE * Z.of_nat i /\
       z0 mod CHUNK_SIZE = 0 /\
       z1 = z0 + Z.of_nat (length f) /\
       z0 < z1 <= z0 + CHUNK_SIZE /\
       ((S i < length batches)%nat -> z1 = z0 + CHUNK_SIZE) /\
       forall z, z0 <= z < z1 -> z / CHUNK_SIZE = Z.of_nat i).
Proof.
  split.
  - intros path img_size voxel n par.
    destruct (create_cloud_volume_eq path img_size voxel n par)
      as (vol & Hc & _ & _ & _ & _ & Hall).
    exists vol. split; [done|].
    revert Hall. apply List.Forall_impl.
    intros s [-> _]. done.
  - intros fs rm vol files sc0 batches path lvl z0 z1 img Hmip Hsc Hch Hin.
    destruct (upload_write_inv fs rm vol files sc0 batches _
                Hmip Hsc Hch Hin)
      as (i & f & blk & lvl' & Hf & _ & _ & _ & Hev).
    injection Hev as _ _ -> -> _.
    destruct (chunk_batch_length files batches i f Hch Hf) as [Hlen Hfull].
    exists i, f. unfold CHUNK_SIZE. repeat split; try done; try lia.
    + apply Z_mod_mult.
    + intros z Hz. symmetry.
      apply (Z.div_unique z 16 (Z.of_nat i) (z - 16 * Z.of_nat i)); lia.
Qed.

(** ** The pyramid *)

Lemma half_up_even (a : nat) : half_up (2 * a) = a.
Proof.
  unfold half_up. symmetry.
  apply (Nat.div_unique (2 * a + 1) 2 a 1); lia.
Qed.


Lemma window_full (n i : nat) :
  (2 * i + 1 < n)%nat -> window n i = [(2 * i)%nat; (2 * i + 1)%nat].
Proof.
  intros H. unfold window.
  rewrite !filter_cons, filter_nil. repeat case_decide; (done || lia).
Qed.


Lemma average_2x2_shape (rm : Z -> Z -> Z) (b : ndarray) (X Y : nat)
    (rest : list nat) :
  shape b = X :: Y :: rest ->
  shape (average_2x2 rm b) = half_up X :: half_up Y :: rest.
Proof. intros H. unfold average_2x2. by rewrite H. Qed.

Lemma average_2x2_item (rm : Z -> Z -> Z) (b : ndarray) (X Y : nat)
    (rest : list nat) (x y : nat) (zs : list nat) :
  shape b = X :: Y :: rest ->
  item (average_2x2 rm b) (x :: y :: zs)
  = let cells :=
      flat_map (fun x' => map (fun y' => item b (x' :: y' :: zs)) (window Y y))
               (window X x) in
    rm (sum_list cells) (Z.of_nat (length cells)).
Proof. intros H. unfold average_2x2. by rewrite H. Qed.

Lemma level_block_depth (rm : Z -> Z -> Z) (b : ndarray) (X Y : nat)
    (rest : list nat) (lvl : nat) :
  shape b = X :: Y :: rest ->
  shape (level_block rm lvl b)
  = Nat.iter lvl half_up X :: Nat.iter lvl half_up Y :: rest.
Proof.
  intros H. induction lvl as [|lvl IH]; [done|].
  unfold level_block in *. simpl.
  by rewrite (average_2x2_shape rm _ _ _ rest IH).
Qed.

(** C2. For a block of even X and Y extents (2a, 2b, c), the level-1 block
    has extent (a, b, c) and its sample at (x, y, z) is the mean, under the
    rounding rule, of the four samples of the 2x2 neighbourhood
    (2x..2x+1, 2y..2y+1) of depth slice z; and for a target level count M
    the pyramid step yields M-1 blocks, the first averaged from the block,
    every further one from the one before it, all of the depth of the
    block. *)
Theorem pyramid_is_2x2_mean (rm : Z -> Z -> Z) (blk : ndarray)
    (a b c : nat) :
  shape blk = [(2 * a)%nat; (2 * b)%nat; c] ->
  shape (average_2x2 rm blk) = [a; b; c] /\
  (forall x y z, (x < a)%nat -> (y < b)%nat ->
     item (average_2x2 rm blk) [x; y; z]
     = rm (item blk [(2 * x)%nat; (2 * y)%nat; z]
           + item blk [(2 * x)%nat; (2 * y + 1)%nat; z]
           + item blk [(2 * x + 1)%nat; (2 * y)%nat; z]
           + item blk [(2 * x + 1)%nat; (2 * y + 1)%nat; z]) 4) /\
  forall M : nat,
    length (average_pooling_2x2 rm blk M) = (M - 1)%nat /\
    (forall p, average_pooling_2x2 rm blk M !! 0%nat = Some p ->
               p = average_2x2 rm blk) /\
    (forall j p q, average_pooling_2x2 rm blk M !! j = Some p ->
                   average_pooling_2x2 rm blk M !! S j = Some q ->
                   q = average_2x2 rm p) /\
    (forall j p, average_pooling_2x2 rm blk M !! j = Some p ->
                 shape p !! 2%nat = Some c).
Proof.
  intros Hsh. split; [|split].
  - rewrite (average_2x2_shape rm blk _ _ [c] Hsh).
    by rewrite !half_up_even.
  - intros x y z Hx Hy.
    rewrite (average_2x2_item rm blk _ _ [c] x y [z] Hsh).
    rewrite !window_full by lia. simpl. f_equal. lia.
  - intros M. unfold average_pooling_2x2.
    assert (Hlook : forall j p, pyramid rm (M - 1) blk !! j = Some p ->
                      p = level_block rm (S j) blk).
    { intros j p Hp.
      pose proof (lookup_lt_Some _ _ _ Hp) as Hj.
      rewrite pyramid_length in Hj.
      rewrite pyramid_lookup in Hp by done. congruence. }
    split; [apply pyramid_length|]. split; [|split].
    + intros p Hp. by apply Hlook in Hp.
    + intros j p q Hp Hq. apply Hlook in Hp, Hq. by subst.
    + intros j p Hp. apply Hlook in Hp. subst p.
      by rewrite (level_block_depth rm blk _ _ [c] (S j) Hsh).
Qed.


(** ** Writing a box and reading it back *)

Lemma voxel_at_chunk (cx cy cz x y z : nat) :
  (0 < cx)%nat -> (0 < cy)%nat -> (0 < cz)%nat ->
  Store.voxel_at [cx; cy; cz]
    (Store.chunk_of [cx; cy; cz] [x; y; z])
    (Store.offset_in [cx; cy; cz] [x; y; z]) = [x; y; z] /\
  Store.in_chunk [cx; cy; cz] (Store.offset_in [cx; cy; cz] [x; y; z]) = true.
Proof.
  intros Hx Hy Hz. split.
  - unfold Store.voxel_at, Store.chunk_of, Store.offset_in. simpl.
    pose proof (Nat.div_mod_eq x cx). pose proof (Nat.div_mod_eq y cy).
    pose proof (Nat.div_mod_eq z cz).
    f_equal; [lia|]. f_equal; [lia|]. f_equal. lia.
  - unfold Store.in_chunk, Store.offset_in. simpl.
    pose proof (Nat.mod_upper_bound x cx). pose proof (Nat.mod_upper_bound y cy).
    pose proof (Nat.mod_upper_bound z cz).
    repeat (apply andb_true_intro; split); try done;
      apply Nat.ltb_lt; lia.
Qed.

Lemma inside_absolute (b : Store.box) (i j k : nat) :
  (i < Store.x1 b - Store.x0 b)%nat ->
  (j < Store.y1 b - Store.y0 b)%nat ->
  (k < Store.z1 b - Store.z0 b)%nat ->
  Store.inside b (Store.absolute b [i; j; k]) = true /\
  Store.relative b (Store.absolute b [i; j; k]) = [i; j; k].
Proof.
  intros Hi Hj Hk. unfold Store.inside, Store.absolute, Store.relative.
  simpl. split.
  - repeat (apply andb_true_intro; split);
      (apply Nat.leb_le || apply Nat.ltb_lt); lia.
  - f_equal; [lia|]. f_equal; [lia|]. f_equal. lia.
Qed.

(** C7. In the store, for every level, box and data array of the extent
    of the box, the write succeeds and reading the box back gives the
    samples written; a second write of the same box and data leaves every
    chunk as the first write left it; and the write changes no sample of
    another level or outside the box, in whichever chunk it lies. *)
Theorem write_then_read (cx cy cz : nat) (s : Store.t) (level : nat)
    (b : Store.box) (data : ndarray) :
  (0 < cx)%nat -> (0 < cy)%nat -> (0 < cz)%nat ->
  shape data = Store.extent b ->
  exists s',
    Store.write_box [cx; cy; cz] s level b data = Ok s' /\
    shape (Store.read_box [cx; cy; cz] s' level b) = shape data /\
    (forall i j k,
       (i < Store.x1 b - Store.x0 b)%nat ->
       (j < Store.y1 b - Store.y0 b)%nat ->
       (k < Store.z1 b - Store.z0 b)%nat ->
       item (Store.read_box [cx; cy; cz] s' level b) [i; j; k]
       = item data [i; j; k]) /\
    (exists s'',
       Store.write_box [cx; cy; cz] s' level b data = Ok s'' /\
       forall l chunk off, s'' l chunk off = s' l chunk off) /\
    (forall l chunk off,
       l <> level \/
       Store.inside b (Store.voxel_at [cx; cy; cz] chunk off) = false ->
       s' l chunk off = s l chunk off).
Proof.
  intros Hx Hy Hz Hsh. unfold Store.write_box.
  rewrite !decide_True by done.
  eexists. split; [reflexivity|]. split; [done|]. split; [|split].
  - intros i j k Hi Hj Hk. cbn [Store.read_box item].
    destruct (inside_absolute b i j k Hi Hj Hk) as [Hin Hrel].
    unfold Store.absolute in *. cbn [zip_with] in *.
    destruct (voxel_at_chunk cx cy cz (Store.x0 b + i) (Store.y0 b + j)
                (Store.z0 b + k) Hx Hy Hz) as [Hv Hc].
    rewrite Hv, Hc, Hin, Nat.eqb_refl. simpl. by rewrite Hrel.
  - eexists. rewrite decide_True by done. split; [reflexivity|].
    intros l chunk off. cbn beta.
    by destruct ((l =? level)%nat && _ && _).
  - intros l chunk off [Hl|Hout]; cbn beta.
    + apply Nat.eqb_neq in Hl. by rewrite Hl.
    + rewrite Hout. by rewrite andb_false_r.
Qed.

(** ** The properties on the sample data *)

Open Scope string_scope.

(** The claim C5 as stated fails: the single row of file "c" has not the
    declared extent (2, 3), and the run yet returns, having written the
    batch with that row repeated. *)
Lemma disagreeing_slice_is_written :
  ~ (forall (fs : string -> option ndarray) (rm : Z -> Z -> Z)
            (vol : CloudVolume) (files : list string) (sc0 : Scale)
            (batches : list (list string)) (X Y i : nat)
            (f : list string) (p : string),
       mip vol = O -> scales (info vol) !! 0%nat = Some sc0 ->
       size sc0 !! 0%nat = Some (Z.of_nat X) ->
       size sc0 !! 1%nat = Some (Z.of_nat Y) ->
       chunks files CHUNK_SIZE = Ok batches ->
       batches !! i = Some f -> In p f -> slice_disagrees fs X Y p ->
       (exists e, snd (upload_image_to_volume fs rm vol files) = Raise e) /\
       forall path lvl z0 z1 img,
         In (WriteBox path lvl z0 z1 img)
            (fst (upload_image_to_volume fs rm vol files)) ->
         z1 <= Z.of_nat i * CHUNK_SIZE).
Proof.
  intros H.
  destruct (H Sample.disk Sample.floor_mean Sample.volume ["a"; "c"; "a"]
              Sample.base_scale [["a"; "c"; "a"]] 2%nat 3%nat O
              ["a"; "c"; "a"] "c") as [[e He] _]; try reflexivity.
  - right. by left.
  - unfold slice_disagrees. vm_compute. discriminate.
  - vm_compute in He. discriminate.
Qed.

Lemma upload_writes_every_level_witness :
  mip Sample.volume = O /\
  scales (info Sample.volume) !! 0%nat = Some Sample.base_scale /\
  exists (batches : list (list string)) (blocks : list ndarray),
    chunks ["a"; "b"; "a"] CHUNK_SIZE = Ok batches /\
    Forall2 (fun f blk =>
               fill_block Sample.disk (size Sample.base_scale) f = Ok blk)
            (take (length blocks) batches) blocks /\
    fst (upload_image_to_volume Sample.disk Sample.floor_mean Sample.volume
           ["a"; "b"; "a"])
    = concat (imap (fun i fb =>
                      batch_writes Sample.floor_mean
                        (layer_cloudpath Sample.volume)
                        (length (scales (info Sample.volume))) i
                        (length (fst fb)) (snd fb))
                   (zip batches blocks)) /\
    match snd (upload_image_to_volume Sample.disk Sample.floor_mean
                 Sample.volume ["a"; "b"; "a"]) with
    | Ok _ => length blocks = length batches
    | Raise e =>
        exists f, batches !! (length blocks) = Some f /\
                  fill_block Sample.disk (size Sample.base_scale) f = Raise e
    end /\
    forall X Y,
      size Sample.base_scale !! 0%nat = Some (Z.of_nat X) ->
      size Sample.base_scale !! 1%nat = Some (Z.of_nat Y) ->
      (forall p, In p ["a"; "b"; "a"] ->
                 slice_raises Sample.disk X Y p = false) ->
      length blocks = length batches /\
      snd (upload_image_to_volume Sample.disk Sample.floor_mean
             Sample.volume ["a"; "b"; "a"]) = Ok tt.
Proof.
  split; [reflexivity|]. split; [reflexivity|].
  apply (upload_writes_every_level Sample.disk Sample.floor_mean
           Sample.volume ["a"; "b"; "a"] Sample.base_scale);
    reflexivity.
Defined.

Lemma failed_batch_writes_nothing_witness :
  slice_raises Sample.disk 2 3 "d" = true /\
  (exists e,
     snd (upload_image_to_volume Sample.disk Sample.floor_mean
            Sample.volume ["a"; "d"]) = Raise e) /\
  forall path lvl z0 z1 img,
    In (WriteBox path lvl z0 z1 img)
       (fst (upload_image_to_volume Sample.disk Sample.floor_mean
               Sample.volume ["a"; "d"])) ->
    z1 <= Z.of_nat 0 * CHUNK_SIZE.
Proof.
  split; [reflexivity|].
  apply (failed_batch_writes_nothing Sample.disk Sample.floor_mean
           Sample.volume ["a"; "d"] Sample.base_scale [["a"; "d"]]
           2%nat 3%nat O ["a"; "d"] "d"); try reflexivity.
  right. left. reflexivity.
Defined.

Lemma pyramid_is_2x2_mean_witness :
  shape (Sample.image [4%nat; 2%nat; 1%nat] 0)
  = [(2 * 2)%nat; (2 * 1)%nat; 1%nat] /\
  item (average_2x2 Sample.floor_mean
          (Sample.image [4%nat; 2%nat; 1%nat] 0)) [1%nat; O; O]
  = 255.
Proof.
  split; [reflexivity|].
  destruct (pyramid_is_2x2_mean Sample.floor_mean
              (Sample.image [4%nat; 2%nat; 1%nat] 0) 2 1 1 eq_refl)
    as (_ & Hmean & _).
  rewrite (Hmean 1%nat O O) by lia. reflexivity.
Defined.



Lemma write_then_read_witness :
  shape (Sample.image [2%nat; 2%nat; 1%nat] 7)
  = Store.extent {| Store.x0 := 127; Store.x1 := 129;
                    Store.y0 := 0; Store.y1 := 2;
                    Store.z0 := 16; Store.z1 := 17 |} /\
  exists s',
    Store.write_box [128%nat; 128%nat; 16%nat] (fun _ _ _ => 0) 1
      {| Store.x0 := 127; Store.x1 := 129;
         Store.y0 := 0; Store.y1 := 2;
         Store.z0 := 16; Store.z1 := 17 |}
      (Sample.image [2%nat; 2%nat; 1%nat] 7) = Ok s' /\
    item (Store.read_box [128%nat; 128%nat; 16%nat] s' 1
            {| Store.x0 := 127; Store.x1 := 129;
               Store.y0 := 0; Store.y1 := 2;
               Store.z0 := 16; Store.z1 := 17 |}) [1%nat; 1%nat; O]
    = 117.
Proof.
  split; [reflexivity|].
  destruct (write_then_read 128 128 16 (fun _ _ _ => 0) 1
              {| Store.x0 := 127; Store.x1 := 129;
                 Store.y0 := 0; Store.y1 := 2;
                 Store.z0 := 16; Store.z1 := 17 |}
              (Sample.image [2%nat; 2%nat; 1%nat] 7))
    as (s' & Hw & _ & Hread & _); try lia; try reflexivity.
  exists s'. split; [exact Hw|].
  rewrite Hread by (simpl; lia). reflexivity.
Defined.

(** ** Further properties of the batching *)

Close Scope string_scope.

(** X1. For any positive batch size [n], [chunks(l, n)] yields ceil(N/n)
    batches that make up [l] again in order; batch [i] is
    [l[i*n : i*n + n]], never empty and at most [n] long, and exactly [n]
    long unless it is the last. *)
Theorem chunks_any_size (A : Type) (l : list A) (n : Z) :
  0 < n ->
  exists batches : list (list A),
    chunks l n = Ok batches /\
    Z.of_nat (length batches) = ceil_div (Z.of_nat (length l)) n /\
    concat batches = l /\
    forall i b, batches !! i = Some b ->
      b = take (Z.to_nat n) (drop (i * Z.to_nat n) l) /\
      (0 < length b <= Z.to_nat n)%nat /\
      ((S i < length batches)%nat -> length b = Z.to_nat n).
Proof.
  intros Hn.
  pose proof (ceil_div_spec (Z.of_nat (length l)) n Hn) as Hceil.
  pose proof (ceil_div_nonneg (Z.of_nat (length l)) n Hn ltac:(lia)) as Hnn.
  set (m := Z.to_nat (ceil_div (Z.of_nat (length l)) n)) in *.
  assert (Hm : Z.of_nat m = ceil_div (Z.of_nat (length l)) n)
    by (subst m; lia).
  rewrite <- Hm in Hceil. clear Hnn.
  exists (map (fun k => take (Z.to_nat n) (drop (k * Z.to_nat n) l))
              (seq 0 m)).
  split; [by rewrite chunks_pos|].
  split; [by rewrite length_map, length_seq|].
  split.
  - rewrite concat_batches. apply take_ge. nia.
  - intros i b Hb. apply batch_lookup in Hb as [Hi ->].
    split; [done|].
    rewrite length_map, length_seq, length_take, length_drop.
    split; [nia|]. intros Hlast. nia.
Qed.

(** X2. A batch size of zero makes [chunks] raise ValueError (the step of
    its range); a negative batch size raises nothing and yields no batch at
    all, whatever the list holds. *)
Theorem chunks_bad_size (A : Type) (l : list A) (n : Z) :
  chunks l 0 = Raise ValueError /\
  (n < 0 -> chunks l n = Ok []).
Proof.
  split; [done|].
  intros Hn. unfold chunks, Py.range.
  destruct (Z.eqb_spec n 0) as [?|_]; [lia|].
  destruct (Z.ltb_spec 0 n) as [?|_]; [lia|].
  replace (Z.to_nat (0 - Z.of_nat (length l))) with O by lia.
  done.
Qed.

Lemma chunks_any_size_witness :
  0 < 2 /\
  exists batches : list (list nat),
    chunks [1%nat; 2%nat; 3%nat] 2 = Ok batches /\ concat batches
    = [1%nat; 2%nat; 3%nat].
Proof.
  split; [lia|].
  destruct (chunks_any_size nat [1%nat; 2%nat; 3%nat] 2 ltac:(lia))
    as (batches & Hc & _ & Hcat & _).
  exists batches. split; [exact Hc | exact Hcat].
Defined.

(** ** Further properties of the loader *)

Lemma axis_index_nat (k D : nat) :
  (k < D)%nat -> Np.axis_index (Z.of_nat k) D = Ok k.
Proof.
  intros Hk. unfold Np.axis_index.
  destruct (Z.ltb_spec (Z.of_nat k) (- Z.of_nat D)); [lia|].
  destruct (Z.leb_spec (Z.of_nat D) (Z.of_nat k)); [lia|]. simpl.
  destruct (Z.ltb_spec (Z.of_nat k) 0); [lia|]. f_equal. lia.
Qed.

Lemma load_image_to_array_eq fs path a out z_idx :
  fs path = Some a ->
  load_image_to_array fs path out z_idx true
  = Np.set_depth_slice out z_idx (Np.transpose (Np.squeeze a)).
Proof.
  intros Hfs. unfold load_image_to_array, open_image. by rewrite Hfs.
Qed.

Lemma set_depth_slice_ok (out v : ndarray) (X Y D k : nat) :
  shape out = [X; Y; D] -> (k < D)%nat ->
  Np.broadcastable (shape v) [X; Y] = true ->
  exists out',
    Np.set_depth_slice out (Z.of_nat k) v = Ok out' /\
    shape out' = [X; Y; D] /\
    (forall x y, item out' [x; y; k]
                 = Np.to_uint16 (item v (Np.broadcast_index (shape v) [x; y]))) /\
    (forall x y k', k' <> k -> item out' [x; y; k'] = item out [x; y; k']).
Proof.
  intros Hsh Hk Hb. unfold Np.set_depth_slice.
  rewrite Hsh, (axis_index_nat k D Hk), Hb.
  eexists. split; [reflexivity|]. simpl. repeat split.
  - intros x y. by rewrite Nat.eqb_refl.
  - intros x y k' Hne. apply Nat.eqb_neq in Hne. by rewrite Hne.
Qed.

Lemma set_depth_slice_mismatch (out v : ndarray) (X Y D k : nat) :
  shape out = [X; Y; D] -> (k < D)%nat ->
  Np.broadcastable (shape v) [X; Y] = false ->
  Np.set_depth_slice out (Z.of_nat k) v = Raise ValueError.
Proof.
  intros Hsh Hk Hb. unfold Np.set_depth_slice.
  by rewrite Hsh, (axis_index_nat k D Hk), Hb.
Qed.

(** X3. When the file decodes, after squeezing, to a two-dimensional image
    of shape (Y, X) and the destination has shape (X, Y, D), the call
    [load_image_to_array(path, out_array, k)] with [0 <= k < D] returns;
    afterwards sample (x, y) of depth slice [k] is sample (y, x) of the
    image, cast to uint16, and every other depth slice is as before. *)
Theorem load_writes_transposed_slice (fs : string -> option ndarray)
    (path : string) (a out : ndarray) (X Y D k : nat) :
  fs path = Some a -> shape (Np.squeeze a) = [Y; X] ->
  shape out = [X; Y; D] -> (k < D)%nat ->
  exists out',
    load_image_to_array fs path out (Z.of_nat k) true = Ok out' /\
    shape out' = [X; Y; D] /\
    (forall x y, item out' [x; y; k]
                 = Np.to_uint16 (item (Np.squeeze a) [y; x])) /\
    (forall x y k', k' <> k -> item out' [x; y; k'] = item out [x; y; k']).
Proof.
  intros Hfs Hsq Hsh Hk.
  pose proof (squeeze_no_singleton a) as Hns. rewrite Hsq in Hns.
  assert (HY : Y <> 1%nat) by (by inversion Hns).
  assert (HX : X <> 1%nat)
    by (inversion Hns as [|? ? _ Hns']; by inversion Hns').
  rewrite (load_image_to_array_eq fs path a out _ Hfs).
  destruct (set_depth_slice_ok out (Np.transpose (Np.squeeze a)) X Y D k
              Hsh Hk) as (out' & Hok & Hsh' & Hitem & Hframe).
  { change (shape (Np.transpose (Np.squeeze a)))
      with (rev (shape (Np.squeeze a))).
    rewrite Hsq. unfold Np.broadcastable. simpl.
    by rewrite !Nat.eqb_refl, !orb_true_r. }
  exists out'. repeat split; try done.
  intros x y. rewrite Hitem.
  change (shape (Np.transpose (Np.squeeze a)))
    with (rev (shape (Np.squeeze a))).
  rewrite Hsq. unfold Np.broadcast_index. simpl.
  apply Nat.eqb_neq in HX, HY. by rewrite HX, HY.
Qed.

(** X4. For a readable file and a destination of depth [D], a depth index
    outside [-D, D) makes [load_image_to_array] raise IndexError, and a
    negative index in range counts from the end: the call does what the
    call with [z_idx + D] does. *)
Theorem load_depth_index_bounds (fs : string -> option ndarray)
    (path : string) (a out : ndarray) (X Y D : nat) (z_idx : Z)
    (tr : bool) :
  fs path = Some a -> shape out = [X; Y; D] ->
  (z_idx < - Z.of_nat D \/ Z.of_nat D <= z_idx ->
   load_image_to_array fs path out z_idx tr = Raise IndexError) /\
  (- Z.of_nat D <= z_idx < 0 ->
   load_image_to_array fs path out z_idx tr
   = load_image_to_array fs path out (z_idx + Z.of_nat D) tr).
Proof.
  intros Hfs Hsh. unfold load_image_to_array, open_image. rewrite Hfs.
  simpl. unfold Np.set_depth_slice. rewrite Hsh. split.
  - intros Hout.
    assert (Hz : Np.axis_index z_idx D = Raise IndexError).
    { unfold Np.axis_index.
      destruct (Z.ltb_spec z_idx (- Z.of_nat D)); [done|].
      destruct (Z.leb_spec (Z.of_nat D) z_idx); [done|]. lia. }
    rewrite Hz. by destruct tr.
  - intros Hneg.
    assert (Hz : Np.axis_index z_idx D
                 = Np.axis_index (z_idx + Z.of_nat D) D).
    { unfold Np.axis_index.
      destruct (Z.ltb_spec z_idx (- Z.of_nat D)); [lia|].
      destruct (Z.leb_spec (Z.of_nat D) z_idx); [lia|].
      destruct (Z.ltb_spec (z_idx + Z.of_nat D) (- Z.of_nat D)); [lia|].
      destruct (Z.leb_spec (Z.of_nat D) (z_idx + Z.of_nat D)); [lia|].
      simpl.
      destruct (Z.ltb_spec z_idx 0); [|lia].
      destruct (Z.ltb_spec (z_idx + Z.of_nat D) 0); [lia|]. done. }
    rewrite Hz. done.
Qed.

(** X5. A slice with fewer axes than two is not refused but repeated: a
    file that squeezes to a single sample fills the whole depth slice with
    it, and a file that squeezes to one row of length Y is copied to every
    X position of the slice. *)
Theorem load_repeats_short_slices (fs : string -> option ndarray)
    (path : string) (a out : ndarray) (X Y D k : nat) :
  fs path = Some a -> shape out = [X; Y; D] -> (k < D)%nat ->
  shape (Np.squeeze a) = [] \/ shape (Np.squeeze a) = [Y] ->
  exists out',
    load_image_to_array fs path out (Z.of_nat k) true = Ok out' /\
    forall x y,
      item out' [x; y; k]
      = Np.to_uint16
          (item (Np.squeeze a)
                (if decide (shape (Np.squeeze a) = []) then [] else [y])).
Proof.
  intros Hfs Hsh Hk Hsq.
  pose proof (squeeze_no_singleton a) as Hns.
  rewrite (load_image_to_array_eq fs path a out _ Hfs).
  destruct Hsq as [Hsq|Hsq].
  - destruct (set_depth_slice_ok out (Np.transpose (Np.squeeze a)) X Y D k
                Hsh Hk) as (out' & Hok & _ & Hitem & _).
    { change (shape (Np.transpose (Np.squeeze a)))
        with (rev (shape (Np.squeeze a))).
      by rewrite Hsq. }
    exists out'. split; [done|]. intros x y. rewrite Hitem.
    change (shape (Np.transpose (Np.squeeze a)))
      with (rev (shape (Np.squeeze a))).
    rewrite Hsq. rewrite decide_True by done. done.
  - rewrite Hsq in Hns.
    assert (HY : Y <> 1%nat) by (by inversion Hns).
    destruct (set_depth_slice_ok out (Np.transpose (Np.squeeze a)) X Y D k
                Hsh Hk) as (out' & Hok & _ & Hitem & _).
    { change (shape (Np.transpose (Np.squeeze a)))
        with (rev (shape (Np.squeeze a))).
      rewrite Hsq. unfold Np.broadcastable. simpl.
      by rewrite Nat.eqb_refl, orb_true_r. }
    exists out'. split; [done|]. intros x y. rewrite Hitem.
    change (shape (Np.transpose (Np.squeeze a)))
      with (rev (shape (Np.squeeze a))).
    rewrite Hsq. rewrite decide_False by done.
    unfold Np.broadcast_index. simpl.
    apply Nat.eqb_neq in HY. by rewrite HY.
Qed.

Lemma strip_ones_none (e : nat) (sh : list nat) :
  Forall (fun d => d <> 1%nat) sh -> Np.strip_ones e sh = sh.
Proof.
  intros H. destruct e as [|e]; [by destruct sh|].
  destruct sh as [|d sh]; [done|].
  inversion H as [|? ? Hd _]. simpl.
  destruct d as [|[|d]]; done.
Qed.

(** X6. A slice that squeezes to two axes of another extent than the
    destination's (X, Y), or to three or more axes, is refused: the
    assignment raises ValueError and the destination stays as it was. *)
Theorem load_rejects_other_extents (fs : string -> option ndarray)
    (path : string) (a out : ndarray) (X Y D k : nat) :
  fs path = Some a -> shape out = [X; Y; D] -> (k < D)%nat ->
  (exists B A, shape (Np.squeeze a) = [B; A] /\ (A <> X \/ B <> Y)) \/
  (3 <= length (shape (Np.squeeze a)))%nat ->
  load_image_to_array fs path out (Z.of_nat k) true = Raise ValueError /\
  array_after out (load_image_to_array fs path out (Z.of_nat k) true) = out.
Proof.
  intros Hfs Hsh Hk Hsq.
  pose proof (squeeze_no_singleton a) as Hns.
  assert (Hraise : load_image_to_array fs path out (Z.of_nat k) true
                   = Raise ValueError).
  { rewrite (load_image_to_array_eq fs path a out _ Hfs).
    apply (set_depth_slice_mismatch out _ X Y D k Hsh Hk).
    change (shape (Np.transpose (Np.squeeze a)))
      with (rev (shape (Np.squeeze a))).
    destruct Hsq as [(B & A & Hsq & Hne)|Hlen].
    - rewrite Hsq in Hns |- *.
      assert (HB : B <> 1%nat) by (by inversion Hns).
      assert (HA : A <> 1%nat)
        by (inversion Hns as [|? ? _ Hns']; by inversion Hns').
      unfold Np.broadcastable. simpl.
      apply Nat.eqb_neq in HA, HB. rewrite HA, HB. simpl.
      destruct Hne as [Hne|Hne]; apply Nat.eqb_neq in Hne; rewrite Hne;
        by rewrite ?andb_false_r.
    - unfold Np.broadcastable.
      rewrite strip_ones_none by (by apply Forall_rev).
      rewrite length_rev. change (length [X; Y]) with 2%nat.
      destruct (Nat.leb_spec (length (shape (Np.squeeze a))) 2) as [?|_];
        [lia | reflexivity]. }
  by rewrite Hraise.
Qed.

(** ** Further properties of the block of a batch *)

Lemma set_depth_slice_range (out v : ndarray) (z_idx : Z) (out' : ndarray) :
  Np.set_depth_slice out z_idx v = Ok out' ->
  (forall idx, 0 <= item out idx < 65536) ->
  forall idx, 0 <= item out' idx < 65536.
Proof.
  unfold Np.set_depth_slice. intros H Hr idx.
  destruct (shape out) as [|X [|Y [|D [|? ?]]]]; try done.
  destruct (Np.axis_index z_idx D) as [z|]; [|done].
  destruct (Np.broadcastable (shape v) [X; Y]); [|done].
  injection H as <-. simpl.
  destruct idx as [|x [|y [|k [|? ?]]]]; try apply Hr.
  destruct (k =? z)%nat; [|apply Hr].
  unfold Np.to_uint16. apply Z.mod_pos_bound. lia.
Qed.

Lemma run_workers_range (fs : string -> option ndarray)
    (jobs : list (nat * string)) :
  forall tmp out, run_workers fs jobs tmp = Ok out ->
  (forall idx, 0 <= item tmp idx < 65536) ->
  forall idx, 0 <= item out idx < 65536.
Proof.
  induction jobs as [|[k p] jobs IH]; intros tmp out H Hr.
  - injection H as <-. done.
  - simpl in H.
    destruct (load_image_to_array fs p tmp (Z.of_nat k) true) as [t|e] eqn:Hl;
      [|done].
    simpl in H. apply (IH t out H).
    apply load_image_to_array_inv in Hl as (a & _ & Hs).
    by apply (set_depth_slice_range tmp _ _ t Hs).
Qed.

(** What a run of the workers leaves in the block: the slice of every job,
    and the block as it was elsewhere. *)
Lemma run_workers_items (fs : string -> option ndarray) (X Y D : nat)
    (jobs : list (nat * string)) :
  forall tmp out,
  shape tmp = [X; Y; D] -> NoDup (map fst jobs) ->
  run_workers fs jobs tmp = Ok out ->
  shape out = [X; Y; D] /\
  (forall k p, In (k, p) jobs ->
     exists a, fs p = Some a /\ (k < D)%nat /\
       Np.broadcastable (shape (Np.transpose (Np.squeeze a))) [X; Y] = true /\
       forall x y,
         item out [x; y; k]
         = Np.to_uint16
             (item (Np.transpose (Np.squeeze a))
                (Np.broadcast_index (shape (Np.transpose (Np.squeeze a)))
                   [x; y]))) /\
  (forall idx,
     (forall k p, In (k, p) jobs -> idx !! 2%nat <> Some k) \/
     length idx <> 3%nat ->
     item out idx = item tmp idx).
Proof.
  induction jobs as [|[k p] jobs IH]; intros tmp out Hsh Hnd H.
  - injection H as <-. repeat split; done.
  - simpl in H.
    destruct (load_image_to_array fs p tmp (Z.of_nat k) true) as [t|e] eqn:Hl;
      [|done].
    simpl in H.
    apply load_image_to_array_inv in Hl as (a & Hfs & Hs).
    apply set_depth_slice_frame in Hs
      as (X' & Y' & D' & z & Hsh' & Hz & Hb & Hsht & Hfr & Hit).
    rewrite Hsh in Hsh'. injection Hsh' as <- <- <-.
    apply axis_index_of_nat in Hz as [-> Hk].
    simpl in Hnd. inversion Hnd as [|? ? Hnotin Hnd']; subst.
    destruct (IH t out ltac:(congruence) Hnd' H) as (Hsho & Hjobs & Hframe).
    split; [done|]. split.
    + intros k' p' [E|Hin].
      * injection E as <- <-. exists a. repeat split; try done.
        intros x y. rewrite Hframe; [apply Hit|].
        left. intros k' p' Hin' E. simpl in E. injection E as ->.
        apply Hnotin, list_elem_of_In, in_map_iff.
        eexists (_, p'). split; [|exact Hin']. done.
      * by apply Hjobs.
    + intros idx Hidx. rewrite Hframe.
      * apply Hfr. destruct Hidx as [Hidx|Hidx]; [left|by right].
        apply (Hidx k p). by left.
      * destruct Hidx as [Hidx|Hidx]; [left|by right].
        intros k' p' Hin. apply (Hidx k' p'). by right.
Qed.

Lemma enumerate_keys_nodup {A} (l : list A) :
  NoDup (map fst (Py.enumerate l)).
Proof.
  apply NoDup_alt. intros i j k Hi Hj.
  change (map ?g ?x) with (g <$> x) in *.
  rewrite list_lookup_fmap in Hi, Hj.
  destruct (Py.enumerate l !! i) as [[k1 x1]|] eqn:E1; [|done].
  destruct (Py.enumerate l !! j) as [[k2 x2]|] eqn:E2; [|done].
  apply enumerate_lookup in E1 as [-> _].
  apply enumerate_lookup in E2 as [-> _].
  simpl in *. congruence.
Qed.

(** X7. The block of a batch, when it can be filled, has the extent
    (X, Y, number of files of the batch), and each of its samples is a
    uint16 value: between 0 and 65535. *)
Theorem fill_block_uint16 (fs : string -> option ndarray) (sz : list Z)
    (X Y : nat) (f : list string) (blk : ndarray) :
  sz !! 0%nat = Some (Z.of_nat X) -> sz !! 1%nat = Some (Z.of_nat Y) ->
  fill_block fs sz f = Ok blk ->
  shape blk = [X; Y; length f] /\
  forall idx, 0 <= item blk idx < 65536.
Proof.
  intros H0 H1 Hfill. rewrite (fill_block_eq fs sz X Y f H0 H1) in Hfill.
  split.
  - by destruct (run_workers_items fs X Y (length f) _
                   (Np.zeros [X; Y; length f]) _ eq_refl
                   (enumerate_keys_nodup f) Hfill) as [? _].
  - apply (run_workers_range fs _ _ _ Hfill). intros idx. simpl. lia.
Qed.

(** X8. When every file of a batch squeezes to a two-dimensional image of
    shape (Y, X), the block of the batch is filled, and its depth slice
    [k] is the transposed image of the [k]-th file of the batch: sample
    (x, y, k) is sample (y, x) of that image, cast to uint16. *)
Theorem fill_block_slices (fs : string -> option ndarray) (sz : list Z)
    (X Y : nat) (f : list string) :
  sz !! 0%nat = Some (Z.of_nat X) -> sz !! 1%nat = Some (Z.of_nat Y) ->
  (forall p, In p f ->
     exists a, fs p = Some a /\ shape (Np.squeeze a) = [Y; X]) ->
  exists blk,
    fill_block fs sz f = Ok blk /\
    forall k p a x y,
      f !! k = Some p -> fs p = Some a ->
      item blk [x; y; k] = Np.to_uint16 (item (Np.squeeze a) [y; x]).
Proof.
  intros H0 H1 Hfiles.
  destruct (fill_block_ok fs sz X Y f H0 H1) as (blk & Hfill & _).
  { intros p Hp. destruct (Hfiles p Hp) as (a & Hfs & Hsq).
    unfold slice_raises, load_image, open_image. rewrite Hfs.
    change (negb (Np.broadcastable (rev (shape (Np.squeeze a))) [X; Y])
            = false).
    rewrite Hsq. unfold Np.broadcastable. simpl.
    by rewrite !Nat.eqb_refl, !orb_true_r. }
  exists blk. split; [done|].
  intros k p a x y Hk Hfs.
  rewrite (fill_block_eq fs sz X Y f H0 H1) in Hfill.
  destruct (run_workers_items fs X Y (length f) _
                   (Np.zeros [X; Y; length f]) _ eq_refl
              (enumerate_keys_nodup f) Hfill) as (_ & Hjobs & _).
  destruct (Hjobs k p) as (a' & Hfs' & _ & _ & Hit);
    [by apply enumerate_In|].
  rewrite Hfs in Hfs'. injection Hfs' as <-.
  rewrite Hit.
  destruct (Hfiles p) as (a'' & Hfs'' & Hsq).
  { apply list_elem_of_In. by eapply list_elem_of_lookup_2. }
  rewrite Hfs in Hfs''. injection Hfs'' as <-.
  pose proof (squeeze_no_singleton a) as Hns. rewrite Hsq in Hns.
  assert (HY : Y <> 1%nat) by (by inversion Hns).
  assert (HX : X <> 1%nat)
    by (inversion Hns as [|? ? _ Hns']; by inversion Hns').
  change (shape (Np.transpose (Np.squeeze a)))
    with (rev (shape (Np.squeeze a))).
  rewrite Hsq. unfold Np.broadcast_index. simpl.
  apply Nat.eqb_neq in HX, HY. by rewrite HX, HY.
Qed.

Lemma jobs_all_or_some (fs : string -> option ndarray) (X Y : nat)
    (jobs : list (nat * string)) :
  (forall k p, In (k, p) jobs -> slice_raises fs X Y p = false) \/
  (exists k p, In (k, p) jobs /\ slice_raises fs X Y p = true).
Proof.
  induction jobs as [|[k p] jobs [IH|(k' & p' & Hin & Hr)]].
  - left. intros ? ? [].
  - destruct (slice_raises fs X Y p) eqn:Hp.
    + right. exists k, p. split; [by left | done].
    + left. intros k' p' [E|Hin]; [by injection E as <- <- | by eapply IH].
  - right. exists k', p'. split; [by right | done].
Qed.

(** X9. The order in which the workers of a batch run does not matter: for
    jobs with pairwise distinct depth indices inside the block, running
    them in any other order fails if and only if the given order fails,
    and otherwise leaves a block of the same shape with the same samples
    everywhere. *)
Theorem workers_order_irrelevant (fs : string -> option ndarray)
    (X Y D : nat) (jobs jobs' : list (nat * string)) (tmp : ndarray) :
  shape tmp = [X; Y; D] ->
  NoDup (map fst jobs) ->
  (forall k p, In (k, p) jobs -> (k < D)%nat) ->
  Permutation jobs jobs' ->
  match run_workers fs jobs tmp, run_workers fs jobs' tmp with
  | Ok out, Ok out' =>
      shape out = shape out' /\ forall idx, item out idx = item out' idx
  | Raise _, Raise _ => True
  | _, _ => False
  end.
Proof.
  intros Hsh Hnd Hk Hperm.
  assert (Hk' : forall k p, In (k, p) jobs' -> (k < D)%nat).
  { intros k p Hin. apply (Hk k p).
    by apply (Permutation_in _ (Permutation_sym Hperm)). }
  assert (Hnd' : NoDup (map fst jobs')).
  { assert (Hp : map fst jobs ≡ₚ map fst jobs')
      by (by apply Permutation_map).
    by rewrite <- Hp. }
  destruct (jobs_all_or_some fs X Y jobs) as [Hall|(k & p & Hin & Hr)].
  - destruct (run_workers_ok fs X Y D jobs tmp Hsh Hk Hall)
      as (out & Hout & Hsho).
    destruct (run_workers_ok fs X Y D jobs' tmp Hsh Hk')
      as (out' & Hout' & Hsho').
    { intros k p Hin. apply (Hall k p).
      by apply (Permutation_in _ (Permutation_sym Hperm)). }
    rewrite Hout, Hout'. split; [congruence|].
    destruct (run_workers_items fs X Y D jobs tmp out Hsh Hnd Hout)
      as (_ & Hj & Hf).
    destruct (run_workers_items fs X Y D jobs' tmp out' Hsh Hnd' Hout')
      as (_ & Hj' & Hf').
    intros idx.
    destruct (decide (length idx = 3%nat)) as [Hlen|Hlen];
      [|rewrite Hf, Hf' by (by right); done].
    destruct idx as [|x [|y [|k [|? ?]]]]; try done.
    destruct (in_dec Nat.eq_dec k (map fst jobs)) as [Hin|Hnin].
    + apply in_map_iff in Hin as ([k0 p] & E & Hin). simpl in E. subst k0.
      destruct (Hj k p Hin) as (a & Hfs & _ & _ & Hit).
      destruct (Hj' k p (Permutation_in _ Hperm Hin))
        as (a' & Hfs' & _ & _ & Hit').
      rewrite Hfs in Hfs'. injection Hfs' as <-.
      by rewrite Hit, Hit'.
    + rewrite Hf, Hf'; [done | |].
      * left. intros k' p' Hin' E. simpl in E. injection E as ->.
        apply Hnin, in_map_iff. exists (k', p'). split; [done|].
        by apply (Permutation_in _ (Permutation_sym Hperm)).
      * left. intros k' p' Hin' E. simpl in E. injection E as ->.
        apply Hnin, in_map_iff. by exists (k', p').
  - destruct (run_workers_raises fs X Y D jobs tmp Hsh Hk) as [e ->];
      [by exists k, p|].
    destruct (run_workers_raises fs X Y D jobs' tmp Hsh Hk') as [e' ->];
      [|done].
    exists k, p. split; [by apply (Permutation_in _ Hperm) | done].
Qed.

Lemma workers_order_irrelevant_witness :
  match run_workers Sample.disk [(O, "a"%string); (1%nat, "b"%string)]
          (Np.zeros [2%nat; 3%nat; 2%nat]),
        run_workers Sample.disk [(1%nat, "b"%string); (O, "a"%string)]
          (Np.zeros [2%nat; 3%nat; 2%nat]) with
  | Ok out, Ok out' =>
      shape out = shape out' /\ forall idx, item out idx = item out' idx
  | Raise _, Raise _ => True
  | _, _ => False
  end.
Proof.
  apply (workers_order_irrelevant Sample.disk 2 3 2).
  - reflexivity.
  - simpl. apply NoDup_cons_2; [|apply NoDup_singleton].
    intros H. apply list_elem_of_singleton in H. discriminate.
  - intros k p [E|[E|[]]]; injection E as <- _; lia.
  - apply perm_swap.
Defined.

(** ** Further properties of the upload *)

Lemma chunks_nonempty {A} (files : list A) (bs : list (list A)) :
  chunks files CHUNK_SIZE = Ok bs -> files <> [] -> bs <> [].
Proof.
  intros Hc Hne. rewrite chunks_pos in Hc by done. injection Hc as <-.
  pose proof (ceil_div_spec (Z.of_nat (length files)) CHUNK_SIZE ltac:(done))
    as Hceil.
  destruct files as [|x files]; [done|].
  destruct (Z.to_nat (ceil_div (Z.of_nat (length (x :: files))) CHUNK_SIZE))
    as [|m] eqn:Hm; [|done].
  simpl length in *. unfold CHUNK_SIZE in *. lia.
Qed.

(** X10. [upload_image_to_volume] on a volume without any level raises
    IndexError before it writes; on an empty file list it writes nothing
    and returns; and on a volume whose level-0 size has fewer than two
    entries it raises at the first batch, before any write. *)
Theorem upload_edge_cases (fs : string -> option ndarray)
    (rm : Z -> Z -> Z) (vol : CloudVolume) (files : list string) :
  (scales (info vol) = [] ->
   upload_image_to_volume fs rm vol files = ([], Raise IndexError)) /\
  (scales (info vol) <> [] ->
   upload_image_to_volume fs rm vol [] = ([], Ok tt)) /\
  (forall sc0, mip vol = O -> scales (info vol) !! 0%nat = Some sc0 ->
     (length (size sc0) < 2)%nat -> files <> [] ->
     exists e, upload_image_to_volume fs rm vol files = ([], Raise e)).
Proof.
  split; [|split].
  - intros H. unfold upload_image_to_volume. by rewrite H.
  - intros H. unfold upload_image_to_volume.
    destruct (scales (info vol)) as [|sc0 l]; [done | reflexivity].
  - intros sc0 Hmip Hsc Hlen Hne.
    destruct (upload_trace fs rm vol files sc0 Hmip Hsc)
      as (batches & blocks & Hch & Hall & Htr & Hres).
    assert (Hfill : forall f, is_ok (fill_block fs (size sc0) f) = false).
    { intros f. unfold fill_block, get.
      destruct (size sc0) as [|a [|b ?]]; simpl in Hlen; try lia;
        [done|].
      unfold to_dim. simpl. by destruct (a <? 0). }
    destruct blocks as [|blk blocks].
    + assert (Hz : zip batches (@nil ndarray) = []) by (by destruct batches).
      rewrite Hz in Htr.
      destruct (upload_image_to_volume fs rm vol files) as [tr r].
      simpl in *. subst tr.
      destruct r as [[]|e]; [|by exists e].
      exfalso. apply (chunks_nonempty files batches Hch Hne).
      by destruct batches.
    + exfalso. destruct batches as [|f batches]; [by inversion Hall|].
      simpl in Hall. inversion Hall as [|? ? ? ? Hf _]; subst.
      specialize (Hfill f). rewrite Hf in Hfill. done.
Qed.

Lemma length_concat_imap {A B} (g : nat -> A -> list B) (l : list A)
    (m : nat) :
  (forall i x, length (g i x) = m) ->
  length (concat (imap g l)) = (m * length l)%nat.
Proof.
  revert g. induction l as [|x l IH]; intros g Hg; [simpl; lia|].
  rewrite imap_cons. simpl. rewrite length_app, Hg, IH; [lia|].
  intros i y. apply Hg.
Qed.

Lemma in_concat_imap_2 {A B} (g : nat -> A -> list B) (l : list A)
    (i : nat) (x : A) (y : B) :
  l !! i = Some x -> In y (g i x) -> In y (concat (imap g l)).
Proof.
  revert g i. induction l as [|x' l IH]; intros g i Hl Hin; [done|].
  rewrite imap_cons. simpl. apply in_or_app.
  destruct i as [|i].
  - left. simpl in Hl. by injection Hl as ->.
  - right. by apply (IH (g ∘ S) i).
Qed.

(** X11. A run of [upload_image_to_volume] that returns has issued one
    write per level and batch, and at every level the depth ranges written
    partition the stack: each depth index of a file lies in the range of
    exactly one write of that level. *)
Theorem upload_covers_every_depth (fs : string -> option ndarray)
    (rm : Z -> Z -> Z) (vol : CloudVolume) (files : list string)
    (sc0 : Scale) :
  mip vol = O -> scales (info vol) !! 0%nat = Some sc0 ->
  snd (upload_image_to_volume fs rm vol files) = Ok tt ->
  length (fst (upload_image_to_volume fs rm vol files))
  = (length (scales (info vol))
     * Z.to_nat (ceil_div (Z.of_nat (length files)) CHUNK_SIZE))%nat /\
  forall (lvl k : nat),
    (lvl < length (scales (info vol)))%nat -> (k < length files)%nat ->
    exists z0 z1,
      z0 <= Z.of_nat k < z1 /\
      (exists img,
         In (WriteBox (layer_cloudpath vol) lvl z0 z1 img)
            (fst (upload_image_to_volume fs rm vol files))) /\
      forall path' z0' z1' img',
        In (WriteBox path' lvl z0' z1' img')
           (fst (upload_image_to_volume fs rm vol files)) ->
        z0' <= Z.of_nat k < z1' -> z0' = z0 /\ z1' = z1.
Proof.
  intros Hmip Hsc Hok.
  destruct (upload_trace fs rm vol files sc0 Hmip Hsc)
    as (batches & blocks & Hch & Hall & Htr & Hres).
  rewrite Hok in Hres.
  pose proof (chunks_pos files CHUNK_SIZE ltac:(done)) as Hch'.
  rewrite Hch in Hch'. injection Hch' as Hbs.
  assert (Hlenb : length batches
                  = Z.to_nat (ceil_div (Z.of_nat (length files)) CHUNK_SIZE))
    by (by rewrite Hbs, length_map, length_seq).
  split.
  - rewrite Htr.
    rewrite (length_concat_imap _ _ (length (scales (info vol)))).
    + rewrite length_zip_with. lia.
    + intros i x. unfold batch_writes. by rewrite length_map, length_seq.
  - intros lvl k Hlvl Hk.
    pose proof (ceil_div_spec (Z.of_nat (length files)) CHUNK_SIZE
                  ltac:(done)) as Hceil.
    pose proof (Nat.div_mod_eq k 16) as Hdm.
    pose proof (Nat.mod_upper_bound k 16 ltac:(lia)) as Hmod.
    set (i := (k / 16)%nat) in *.
    assert (Hi : (i < length batches)%nat).
    { rewrite Hlenb. unfold CHUNK_SIZE in *. lia. }
    destruct (lookup_lt_is_Some_2 batches i Hi) as [f Hf].
    destruct (lookup_lt_is_Some_2 blocks i ltac:(lia)) as [blk Hblk].
    assert (Hfeq : f = take 16 (drop (i * 16) files)).
    { rewrite Hbs in Hf. by apply batch_lookup in Hf as [_ ->]. }
    assert (Hflen : (k - 16 * i < length f)%nat).
    { rewrite Hfeq, length_take, length_drop. lia. }
    exists (Z.of_nat i * CHUNK_SIZE),
           (Z.of_nat i * CHUNK_SIZE + Z.of_nat (length f)).
    split; [unfold CHUNK_SIZE; lia|]. split.
    + exists (level_block rm lvl blk). rewrite Htr.
      apply (in_concat_imap_2 _ _ i (f, blk)).
      * apply lookup_zip_with_Some. by exists f, blk.
      * unfold batch_writes. simpl. apply in_map_iff.
        exists lvl. split; [done|]. apply in_seq. lia.
    + intros path' z0' z1' img' Hin Hr.
      destruct (upload_write_inv fs rm vol files sc0 batches _
                  Hmip Hsc Hch Hin)
        as (i' & f' & blk' & lvl' & Hf' & _ & _ & _ & Hev).
      injection Hev as _ _ -> -> _.
      destruct (chunk_batch_length files batches i' f' Hch Hf') as [Hl _].
      assert (i' = i) as -> by (unfold CHUNK_SIZE in *; lia).
      rewrite Hf in Hf'. by injection Hf' as <-.
Qed.

(** ** Further properties of the whole run *)

Lemma get_image_dims_ok (fs : string -> option ndarray)
    (files : list string) (f0 : string) (a : ndarray) (h w : nat) :
  files !! 0%nat = Some f0 -> fs f0 = Some a ->
  shape (Np.squeeze a) = [h; w] ->
  get_image_dims fs files
  = Ok [Z.of_nat w; Z.of_nat h; Z.of_nat (length files)].
Proof.
  intros Hf0 Hfs Hsq. unfold get_image_dims, get, load_image, open_image.
  rewrite Hf0. simpl. rewrite Hfs.
  change (match rev (shape (Np.squeeze a)) with
          | [x; y] => Ok [Z.of_nat x; Z.of_nat y; Z.of_nat (length files)]
          | _ => Raise ValueError
          end
          = Ok [Z.of_nat w; Z.of_nat h; Z.of_nat (length files)]).
  by rewrite Hsq.
Qed.

(** Once the extent and the voxel size are known, [main] commits the
    schema of six levels and uploads into the volume opened at level 0,
    whose level-0 size is the extent. *)
Lemma main_unfold (fs : string -> option ndarray) (rm : Z -> Z -> Z)
    (files : list string) (voxel : list Z) (path : string) (X Y D : Z) :
  get_image_dims fs files = Ok [X; Y; D] ->
  exists vol sc0,
    main fs rm files (Ok voxel) path
    = (CommitInfo path (info vol)
         :: fst (upload_image_to_volume fs rm vol files),
       snd (upload_image_to_volume fs rm vol files)) /\
    mip vol = O /\ layer_cloudpath vol = path /\
    scales (info vol) !! 0%nat = Some sc0 /\ size sc0 = [X; Y; D] /\
    length (scales (info vol)) = 6%nat.
Proof.
  intros Hdims.
  destruct (create_cloud_volume_eq path [X; Y; D] voxel 6 true)
    as (vol & Hc & Hmip & Hpath & Hinfo & _ & _).
  pose proof (scales_fold
                (Cv.create_new_info 1 "image" "uint16" "raw" voxel [0; 0; 0]
                   [CHUNK_SIZE * 8; CHUNK_SIZE * 8; CHUNK_SIZE] [X; Y; D])
                {| factor := [1; 1; 1]; size := [X; Y; D];
                   chunk_sizes := [CHUNK_SIZE * 8; CHUNK_SIZE * 8; CHUNK_SIZE];
                   voxel_offset := [0; 0; 0] |} X Y D 5
                eq_refl eq_refl eq_refl) as Hsc.
  rewrite <- Hinfo in Hsc.
  exists vol, (Cv.derived_scale
                 {| factor := [1; 1; 1]; size := [X; Y; D];
                    chunk_sizes :=
                      [CHUNK_SIZE * 8; CHUNK_SIZE * 8; CHUNK_SIZE];
                    voxel_offset := [0; 0; 0] |} [pow2 0; pow2 0; 1]).
  split; [|split; [done|split; [done|split; [|split]]]].
  - unfold main. rewrite Hdims. unfold lift, bind at 1 2. unfold bind.
    rewrite Hc.
    by destruct (upload_image_to_volume fs rm vol files).
  - by rewrite Hsc.
  - unfold Cv.derived_scale. cbn -[ceil_div pow2].
    change (pow2 0) with 1. by rewrite !ceil_div_1.
  - by rewrite Hsc, length_map, length_seq.
Qed.

(** X12. [main] does nothing to the store unless both the first slice and
    the voxel size are read: an empty file list ends it with IndexError,
    an unreadable first file with IOError, a failure of the voxel size
    with that failure, each time without a commit or a write.  Only the
    first file is decoded for the extent: the other files count, but what
    they hold does not matter to [get_image_dims]. *)
Theorem main_early_errors (fs : string -> option ndarray)
    (rm : Z -> Z -> Z) (voxel_dims : result (list Z)) (path : string) :
  main fs rm [] voxel_dims path = ([], Raise IndexError) /\
  (forall f0 rest, fs f0 = None ->
     main fs rm (f0 :: rest) voxel_dims path = ([], Raise IOError)) /\
  (forall files dims e, get_image_dims fs files = Ok dims ->
     main fs rm files (Raise e) path = ([], Raise e)) /\
  (forall fs' f0 rest rest', fs' f0 = fs f0 -> length rest' = length rest ->
     get_image_dims fs' (f0 :: rest') = get_image_dims fs (f0 :: rest)).
Proof.
  repeat split.
  - intros f0 rest Hfs. unfold main, get_image_dims, get, load_image,
      open_image. simpl. by rewrite Hfs.
  - intros files dims e Hd. unfold main. by rewrite Hd.
  - intros fs' f0 rest rest' Hfs Hlen.
    unfold get_image_dims, get, load_image, open_image. simpl.
    by rewrite Hfs, Hlen.
Qed.

Lemma upload_fails_at (fs : string -> option ndarray) (rm : Z -> Z -> Z)
    (vol : CloudVolume) (files : list string) (sc0 : Scale)
    (batches : list (list string)) (i : nat) (f : list string) (e : exn) :
  mip vol = O -> scales (info vol) !! 0%nat = Some sc0 ->
  chunks files CHUNK_SIZE = Ok batches -> batches !! i = Some f ->
  fill_block fs (size sc0) f = Raise e ->
  (exists e', snd (upload_image_to_volume fs rm vol files) = Raise e') /\
  forall path lvl z0 z1 img,
    In (WriteBox path lvl z0 z1 img)
       (fst (upload_image_to_volume fs rm vol files)) ->
    z1 <= Z.of_nat i * CHUNK_SIZE.
Proof.
  intros Hmip Hsc Hch Hf He. split.
  - destruct (upload_trace fs rm vol files sc0 Hmip Hsc)
      as (bs & blocks & Hch' & Hall & _ & Hres).
    rewrite Hch in Hch'. injection Hch' as <-.
    destruct (snd (upload_image_to_volume fs rm vol files)) as [u|e'];
      [|by exists e'].
    exfalso.
    assert (Hi : (i < length blocks)%nat)
      by (rewrite Hres; by eapply lookup_lt_Some).
    destruct (lookup_lt_is_Some_2 blocks i Hi) as [b Hb].
    assert (Hfb : fill_block fs (size sc0) f = Ok b).
    { apply (Forall2_lookup_lr _ _ _ i f b Hall); [|done].
      by rewrite lookup_take_lt. }
    congruence.
  - intros path lvl z0 z1 img Hin.
    destruct (upload_write_inv fs rm vol files sc0 batches _
                Hmip Hsc Hch Hin)
      as (i' & f' & blk & lvl' & Hf' & _ & _ & Hpre & Hev).
    injection Hev as _ _ _ -> _.
    destruct (Nat.lt_ge_cases i' i) as [Hlt|Hge].
    + destruct (chunk_batch_length files batches i' f' Hch Hf') as [Hlen _].
      unfold CHUNK_SIZE. lia.
    + specialize (Hpre i f Hge Hf). rewrite He in Hpre. done.
Qed.

(** X13. The extent is taken from the first file alone, so a later file
    that cannot be loaded is met only during the upload: [main] has then
    already committed the schema, it ends with an exception, and what it
    has written lies below the depth range of the batch of that file. *)
Theorem main_fails_after_commit (fs : string -> option ndarray)
    (rm : Z -> Z -> Z) (files : list string) (voxel : list Z)
    (path : string) (f0 : string) (a : ndarray) (h w : nat)
    (batches : list (list string)) (i : nat) (f : list string)
    (p : string) :
  files !! 0%nat = Some f0 -> fs f0 = Some a ->
  shape (Np.squeeze a) = [h; w] ->
  chunks files CHUNK_SIZE = Ok batches -> batches !! i = Some f ->
  In p f -> slice_raises fs w h p = true ->
  exists inf tr e,
    main fs rm files (Ok voxel) path = (CommitInfo path inf :: tr, Raise e) /\
    forall path' lvl z0 z1 img,
      In (WriteBox path' lvl z0 z1 img) tr -> z1 <= Z.of_nat i * CHUNK_SIZE.
Proof.
  intros Hf0 Hfs Hsq Hch Hf Hp Hr.
  destruct (main_unfold fs rm files voxel path _ _ _
              (get_image_dims_ok fs files f0 a h w Hf0 Hfs Hsq))
    as (vol & sc0 & Hmain & Hmip & _ & Hsc & Hsz & _).
  destruct (fill_block_raises fs (size sc0) w h f p) as [e He];
    [by rewrite Hsz | by rewrite Hsz | done | done |].
  destruct (upload_fails_at fs rm vol files sc0 batches i f e
              Hmip Hsc Hch Hf He) as [[e' He'] Hw].
  exists (info vol), (fst (upload_image_to_volume fs rm vol files)), e'.
  split; [by rewrite Hmain, He' | exact Hw].
Qed.

(** X14. On a non-empty directory whose files all squeeze to
    two-dimensional images of one shape, [main] returns: it commits a
    schema of six levels and then issues six writes per batch of sixteen
    files, and nothing else. *)
Theorem main_succeeds (fs : string -> option ndarray)
    (rm : Z -> Z -> Z) (files : list string) (voxel : list Z)
    (path : string) (h w : nat) :
  files <> [] ->
  (forall p, In p files ->
     exists a, fs p = Some a /\ shape (Np.squeeze a) = [h; w]) ->
  exists inf tr,
    main fs rm files (Ok voxel) path = (CommitInfo path inf :: tr, Ok tt) /\
    length (scales inf) = 6%nat /\
    length tr
    = (6 * Z.to_nat (ceil_div (Z.of_nat (length files)) CHUNK_SIZE))%nat /\
    forall ev, In ev tr -> exists lvl z0 z1 img,
      ev = WriteBox path lvl z0 z1 img /\ (lvl < 6)%nat.
Proof.
  intros Hne Hfiles.
  destruct files as [|f0 rest] eqn:Efiles; [done|]. rewrite <- Efiles in *.
  destruct (Hfiles f0) as (a & Hfs & Hsq); [subst files; by left|].
  assert (Hf0 : files !! 0%nat = Some f0) by (by subst files).
  destruct (main_unfold fs rm files voxel path _ _ _
              (get_image_dims_ok fs files f0 a h w Hf0 Hfs Hsq))
    as (vol & sc0 & Hmain & Hmip & Hpath & Hsc & Hsz & Hlen).
  destruct (upload_trace fs rm vol files sc0 Hmip Hsc)
    as (batches & blocks & Hch & Hall & Htr & Hres).
  assert (Hok : snd (upload_image_to_volume fs rm vol files) = Ok tt).
  { destruct (snd (upload_image_to_volume fs rm vol files)) as [[]|e];
      [done|].
    destruct Hres as (f & Hf & Hraise).
    destruct (fill_block_ok fs (size sc0) w h f) as (blk & Hblk & _);
      [by rewrite Hsz | by rewrite Hsz | | congruence].
    intros p Hp.
    destruct (Hfiles p) as (a' & Hfs' & Hsq');
      [by eapply chunk_batch_incl|].
    unfold slice_raises, load_image, open_image. rewrite Hfs'.
    change (negb (Np.broadcastable (rev (shape (Np.squeeze a'))) [w; h])
            = false).
    rewrite Hsq'. unfold Np.broadcastable. simpl.
    by rewrite !Nat.eqb_refl, !orb_true_r. }
  rewrite Hok in Hres.
  exists (info vol), (fst (upload_image_to_volume fs rm vol files)).
  split; [by rewrite Hmain, Hok|]. split; [done|]. split.
  - rewrite Htr, (length_concat_imap _ _ 6).
    + rewrite length_zip_with.
      pose proof (chunks_pos files CHUNK_SIZE ltac:(done)) as Hch'.
      rewrite Hch in Hch'. injection Hch' as ->.
      rewrite length_map, length_seq in *. lia.
    + intros i x. unfold batch_writes.
      by rewrite length_map, length_seq, Hlen.
  - intros ev Hin.
    destruct (upload_write_inv fs rm vol files sc0 batches ev
                Hmip Hsc Hch Hin)
      as (i & f & blk & lvl & _ & _ & Hlvl & _ & ->).
    rewrite Hpath. eexists lvl, _, _, _. split; [done | lia].
Qed.

(** ** Properties of the per-slice downsampling helper *)

Lemma set_depth_slice_as_frame (cast : Z -> Z) (a v : ndarray) (z_idx : Z)
    (a' : ndarray) :
  set_depth_slice_as cast a z_idx v = Ok a' ->
  shape a' = shape a /\
  forall idx,
    (forall D z, shape a !! 2%nat = Some D ->
                 Np.axis_index z_idx D = Ok z -> idx !! 2%nat <> Some z) ->
    item a' idx = item a idx.
Proof.
  unfold set_depth_slice_as. intros H.
  destruct (shape a) as [|X [|Y [|D [|? ?]]]] eqn:Hsh; try done.
  destruct (Np.axis_index z_idx D) as [z|] eqn:Hz; [|done].
  destruct (Np.broadcastable (shape v) [X; Y]); [|done].
  injection H as <-. simpl. split; [done|].
  intros idx Hidx.
  destruct idx as [|x [|y [|k [|? ?]]]]; try done.
  destruct (Nat.eqb_spec k z) as [->|?]; [|done].
  by destruct (Hidx D z eq_refl Hz).
Qed.

Lemma range_from_one (num_mips : Z) :
  exists levels,
    Py.range 1 num_mips 1 = Ok levels /\
    (forall i, In i levels <-> 1 <= i < num_mips).
Proof.
  unfold Py.range. simpl.
  rewrite range_up_unfold by lia.
  eexists. split; [reflexivity|].
  intros i. rewrite in_map_iff. unfold ceil_div.
  replace (num_mips - 1 + 1 - 1) with (num_mips - 1) by lia.
  rewrite Z.div_1_r. split.
  - intros (k & <- & Hk). apply in_seq in Hk. lia.
  - intros Hi. exists (Z.to_nat (i - 1)). split; [lia|].
    apply in_seq. lia.
Qed.

Lemma downsample_loop_untouched (cast : Z -> Z) (pyr : list ndarray)
    (z_idx : Z) (out_arrays : list nat) (r : nat) (levels : list Z) :
  (forall i, In i levels -> out_arrays !! Z.to_nat i <> Some r) ->
  forall h, fst (downsample_loop cast pyr z_idx levels out_arrays h) r = h r.
Proof.
  induction levels as [|i levels IH]; intros Hr h; [done|].
  simpl.
  destruct (get pyr (Z.to_nat (i - 1))) as [p|e]; [|done].
  destruct (get out_arrays (Z.to_nat i)) as [r0|e] eqn:Hget; [|done].
  destruct (set_depth_slice_as cast (h r0) z_idx p) as [a1|e]; [|done].
  rewrite IH by (intros i' Hin; apply Hr; by right).
  unfold heap_set.
  destruct (Nat.eqb_spec r r0) as [->|?]; [|done].
  exfalso. apply (Hr i); [by left|].
  unfold get in Hget. destruct (out_arrays !! Z.to_nat i); [|done].
  by injection Hget as ->.
Qed.

Lemma downsample_loop_frame (cast : Z -> Z) (pyr : list ndarray)
    (z_idx : Z) (out_arrays : list nat) (r : nat) (levels : list Z) :
  forall h,
  shape (fst (downsample_loop cast pyr z_idx levels out_arrays h) r)
  = shape (h r) /\
  forall idx,
    (forall D z, shape (h r) !! 2%nat = Some D ->
                 Np.axis_index z_idx D = Ok z -> idx !! 2%nat <> Some z) ->
    item (fst (downsample_loop cast pyr z_idx levels out_arrays h) r) idx
    = item (h r) idx.
Proof.
  induction levels as [|i levels IH]; intros h; [done|].
  simpl.
  destruct (get pyr (Z.to_nat (i - 1))) as [p|e]; [|done].
  destruct (get out_arrays (Z.to_nat i)) as [r0|e]; [|done].
  destruct (set_depth_slice_as cast (h r0) z_idx p) as [a1|e] eqn:Hset;
    [|done].
  apply set_depth_slice_as_frame in Hset as [Hsh1 Hfr1].
  destruct (IH (heap_set h r0 a1)) as [Hsh Hfr].
  unfold heap_set in *.
  destruct (Nat.eqb_spec r r0) as [->|Hne].
  - split; [congruence|].
    intros idx Hidx. rewrite Hfr; [by apply Hfr1|]. by rewrite Hsh1.
  - done.
Qed.

(** X15. [downsample_image] assigns in place, and only into the objects
    that [out_arrays[1]] to [out_arrays[num_mips-1]] refer to: an array
    object that none of these entries refers to is as it was (so is
    [out_arrays[0]], unless the same object is passed again at such an
    index); every array object keeps its shape and its samples outside
    depth slice [z_idx], whether the call returns or raises; and for
    [num_mips <= 1] the call changes nothing and returns, whatever the
    library gives. *)
Theorem downsample_image_frame (cast : Z -> Z)
    (downsample_with_averaging : ndarray -> list Z -> Z -> list ndarray)
    (image : ndarray) (out_arrays : list nat) (h : heap)
    (num_mips z_idx : Z) (factor : list Z) :
  (forall r,
     (forall i, 1 <= i < num_mips -> out_arrays !! Z.to_nat i <> Some r) ->
     fst (downsample_image cast downsample_with_averaging image
            out_arrays h num_mips z_idx factor) r = h r) /\
  (forall r0,
     out_arrays !! 0%nat = Some r0 ->
     (forall i, 1 <= i < num_mips -> out_arrays !! Z.to_nat i <> Some r0) ->
     fst (downsample_image cast downsample_with_averaging image
            out_arrays h num_mips z_idx factor) r0 = h r0) /\
  (forall r,
     shape (fst (downsample_image cast downsample_with_averaging image
                   out_arrays h num_mips z_idx factor) r)
     = shape (h r) /\
     forall idx,
       (forall D z, shape (h r) !! 2%nat = Some D ->
                    Np.axis_index z_idx D = Ok z ->
                    idx !! 2%nat <> Some z) ->
       item (fst (downsample_image cast downsample_with_averaging image
                    out_arrays h num_mips z_idx factor) r) idx
       = item (h r) idx) /\
  (num_mips <= 1 ->
   downsample_image cast downsample_with_averaging image out_arrays h
     num_mips z_idx factor = (h, Ok tt)).
Proof.
  destruct (range_from_one num_mips) as (levels & Hr & Hin).
  unfold downsample_image. rewrite Hr.
  assert (Hun : forall r,
     (forall i, 1 <= i < num_mips -> out_arrays !! Z.to_nat i <> Some r) ->
     fst (downsample_loop cast
            (downsample_with_averaging image factor num_mips)
            z_idx levels out_arrays h) r = h r).
  { intros r Hfree. apply downsample_loop_untouched.
    intros i Hi. apply Hfree. by apply Hin. }
  split; [exact Hun|]. split; [intros r0 _; apply Hun|]. split.
  - intros r. apply downsample_loop_frame.
  - intros Hle. destruct levels as [|i levels]; [done|].
    exfalso. assert (1 <= i < num_mips) by (apply Hin; by left). lia.
Qed.

Lemma downsample_loop_needs (cast : Z -> Z) (pyr : list ndarray)
    (z_idx : Z) (out_arrays : list nat) (levels : list Z) :
  forall h,
  snd (downsample_loop cast pyr z_idx levels out_arrays h) = Ok tt ->
  forall i, In i levels ->
    (Z.to_nat (i - 1) < length pyr)%nat /\
    (Z.to_nat i < length out_arrays)%nat.
Proof.
  induction levels as [|i0 levels IH]; intros h Hok i Hin; [done|].
  simpl in Hok.
  destruct (get pyr (Z.to_nat (i0 - 1))) as [p|e] eqn:Hp; [|done].
  destruct (get out_arrays (Z.to_nat i0)) as [r0|e] eqn:Ha; [|done].
  destruct (set_depth_slice_as cast (h r0) z_idx p) as [a1|e]; [|done].
  destruct Hin as [->|Hin].
  - unfold get in Hp, Ha.
    destruct (pyr !! Z.to_nat (i - 1)) eqn:E1; [|done].
    destruct (out_arrays !! Z.to_nat i) eqn:E2; [|done].
    split; by eapply lookup_lt_Some.
  - by apply (IH _ Hok i Hin).
Qed.

(** X16. A call of [downsample_image] with [num_mips] above one can only
    return if the library has given at least [num_mips - 1] images and
    [out_arrays] holds at least [num_mips] arrays; otherwise it raises. *)
Theorem downsample_image_needs_levels (cast : Z -> Z)
    (downsample_with_averaging : ndarray -> list Z -> Z -> list ndarray)
    (image : ndarray) (out_arrays : list nat) (h : heap)
    (num_mips z_idx : Z) (factor : list Z) :
  1 < num_mips ->
  snd (downsample_image cast downsample_with_averaging image out_arrays h
         num_mips z_idx factor) = Ok tt ->
  num_mips - 1
  <= Z.of_nat (length (downsample_with_averaging image factor num_mips)) /\
  num_mips <= Z.of_nat (length out_arrays).
Proof.
  intros Hn Hok.
  destruct (range_from_one num_mips) as (levels & Hr & Hin).
  unfold downsample_image in Hok. rewrite Hr in Hok.
  destruct (downsample_loop_needs cast _ z_idx out_arrays levels h Hok
              (num_mips - 1)) as [H1 H2]; [apply Hin; lia|].
  lia.
Qed.

Lemma downsample_image_needs_levels_witness :
  1 < 2 /\
  2 - 1 <= Z.of_nat (length [Sample.image [1%nat; 1%nat; 1%nat] 5]) /\
  2 <= Z.of_nat (length [O; 1%nat]).
Proof.
  split; [lia|].
  apply (downsample_image_needs_levels (fun v => v)
           (fun _ _ _ => [Sample.image [1%nat; 1%nat; 1%nat] 5])
           (Np.zeros [2%nat; 2%nat; 1%nat])
           [O; 1%nat]
           (fun r => if (r =? 0)%nat then Np.zeros [2%nat; 2%nat; 1%nat]
                     else Np.zeros [1%nat; 1%nat; 1%nat])
           2 0 [2; 2; 1]); [lia | reflexivity].
Defined.

(** ** The further properties on the sample data *)

Lemma load_writes_transposed_slice_witness :
  exists out',
    load_image_to_array Sample.disk "a" (Np.zeros [2%nat; 3%nat; 1%nat])
      (Z.of_nat 0) true = Ok out' /\
    item out' [1%nat; 2%nat; O] = 121.
Proof.
  destruct (load_writes_transposed_slice Sample.disk "a"
              (Sample.image [3%nat; 2%nat] 100)
              (Np.zeros [2%nat; 3%nat; 1%nat]) 2 3 1 0)
    as (out' & Hok & _ & Hit & _); try reflexivity; [lia|].
  exists out'. split; [exact Hok|]. rewrite Hit. reflexivity.
Defined.

Lemma load_depth_index_bounds_witness :
  load_image_to_array Sample.disk "a" (Np.zeros [2%nat; 3%nat; 2%nat])
    (-1) true
  = load_image_to_array Sample.disk "a" (Np.zeros [2%nat; 3%nat; 2%nat])
      (-1 + Z.of_nat 2) true.
Proof.
  apply (load_depth_index_bounds Sample.disk "a"
           (Sample.image [3%nat; 2%nat] 100)
           (Np.zeros [2%nat; 3%nat; 2%nat]) 2 3 2 (-1) true);
    [reflexivity | reflexivity | lia].
Defined.

Lemma load_repeats_short_slices_witness :
  exists out',
    load_image_to_array Sample.disk "c" (Np.zeros [2%nat; 3%nat; 1%nat])
      (Z.of_nat 0) true = Ok out' /\
    item out' [O; 2%nat; O] = 302 /\ item out' [1%nat; 2%nat; O] = 302.
Proof.
  destruct (load_repeats_short_slices Sample.disk "c"
              (Sample.image [1%nat; 3%nat] 300)
              (Np.zeros [2%nat; 3%nat; 1%nat]) 2 3 1 0)
    as (out' & Hok & Hit); try reflexivity; [lia | by right |].
  exists out'. split; [exact Hok|]. rewrite !Hit. split; reflexivity.
Defined.

Lemma load_rejects_other_extents_witness :
  load_image_to_array Sample.disk "d" (Np.zeros [2%nat; 3%nat; 1%nat])
    (Z.of_nat 0) true = Raise ValueError /\
  array_after (Np.zeros [2%nat; 3%nat; 1%nat])
    (load_image_to_array Sample.disk "d" (Np.zeros [2%nat; 3%nat; 1%nat])
       (Z.of_nat 0) true)
  = Np.zeros [2%nat; 3%nat; 1%nat].
Proof.
  apply (load_rejects_other_extents Sample.disk "d"
           (Sample.image [2%nat; 2%nat] 400)
           (Np.zeros [2%nat; 3%nat; 1%nat]) 2 3 1 0);
    [reflexivity | reflexivity | lia |].
  left. exists 2%nat, 2%nat. split; [reflexivity|]. right. lia.
Defined.

Lemma fill_block_uint16_witness :
  shape (array_after (Np.zeros [])
           (fill_block Sample.disk [2; 3; 3] ["a"%string; "b"%string]))
  = [2%nat; 3%nat; 2%nat] /\
  forall idx,
    0 <= item (array_after (Np.zeros [])
                 (fill_block Sample.disk [2; 3; 3]
                    ["a"%string; "b"%string])) idx < 65536.
Proof.
  apply (fill_block_uint16 Sample.disk [2; 3; 3] 2 3
           ["a"%string; "b"%string]); reflexivity.
Defined.

Lemma fill_block_slices_witness :
  exists blk,
    fill_block Sample.disk [2; 3; 3] ["a"%string; "b"%string] = Ok blk /\
    item blk [1%nat; 2%nat; 1%nat] = 221.
Proof.
  destruct (fill_block_slices Sample.disk [2; 3; 3] 2 3
              ["a"%string; "b"%string]) as (blk & Hok & Hit);
    try reflexivity.
  { intros p [<-|[<-|[]]]; eexists; split; reflexivity. }
  exists blk. split; [exact Hok|].
  rewrite (Hit 1%nat "b"%string (Sample.image [1%nat; 3%nat; 2%nat] 200))
    by reflexivity.
  reflexivity.
Defined.

Lemma upload_covers_every_depth_witness :
  snd (upload_image_to_volume Sample.disk Sample.floor_mean Sample.volume
         ["a"%string; "b"%string; "a"%string]) = Ok tt /\
  length (fst (upload_image_to_volume Sample.disk Sample.floor_mean
                 Sample.volume ["a"%string; "b"%string; "a"%string]))
  = 2%nat.
Proof.
  split; [reflexivity|].
  destruct (upload_covers_every_depth Sample.disk Sample.floor_mean
              Sample.volume ["a"%string; "b"%string; "a"%string]
              Sample.base_scale eq_refl eq_refl eq_refl) as [Hlen _].
  rewrite Hlen. reflexivity.
Defined.

Lemma main_fails_after_commit_witness :
  slice_raises Sample.disk 2 3 "d" = true /\
  exists inf tr e,
    main Sample.disk Sample.floor_mean ["a"%string; "d"%string]
      (Ok [1; 1; 1]) "layer"
    = (CommitInfo "layer" inf :: tr, Raise e) /\
    forall path' lvl z0 z1 img,
      In (WriteBox path' lvl z0 z1 img) tr ->
      z1 <= Z.of_nat 0 * CHUNK_SIZE.
Proof.
  split; [reflexivity|].
  apply (main_fails_after_commit Sample.disk Sample.floor_mean
           ["a"%string; "d"%string] [1; 1; 1] "layer" "a"
           (Sample.image [3%nat; 2%nat] 100) 3 2
           [["a"%string; "d"%string]] 0 ["a"%string; "d"%string] "d");
    try reflexivity.
  right. left. reflexivity.
Defined.

Lemma main_succeeds_witness :
  exists inf tr,
    main Sample.disk Sample.floor_mean ["a"%string; "b"%string]
      (Ok [1; 1; 1]) "layer"
    = (CommitInfo "layer" inf :: tr, Ok tt) /\
    length (scales inf) = 6%nat /\
    length tr
    = (6 * Z.to_nat (ceil_div (Z.of_nat (length ["a"%string; "b"%string]))
                       CHUNK_SIZE))%nat /\
    forall ev, In ev tr -> exists lvl z0 z1 img,
      ev = WriteBox "layer" lvl z0 z1 img /\ (lvl < 6)%nat.
Proof.
  apply (main_succeeds Sample.disk Sample.floor_mean
           ["a"%string; "b"%string] [1; 1; 1] "layer" 3 2).
  - discriminate.
  - intros p [<-|[<-|[]]]; eexists; split; reflexivity.
Defined.
